(** * Heritage-site monitor: the spectral-index engine

    A shallow embedding of [utils/gee_utils.py] (class [HeritageMonitor]),
    of the index catalog of [config/settings.py] and of
    [utils/db_utils.py] ([generate_params_hash]), and of the code around
    them that feeds or reads them: the list of custom indices of
    [ui/sidebar.py], the change masks of [ui/tabs/change_tab.py] and the
    statistics loops of [app.py] and [ui/tabs/report_tab.py].

    The Python code drives the Earth Engine client library.  That library
    is not part of the repository; the module [ee] below models the calls
    the source makes, following the library's reference documentation.
    Two facts about it shape the whole development:

    - client calls on an [ee.Image] are deferred: [select], [divide],
      [normalizedDifference], [expression], [rename], [addBands] only build
      a description of a server-side computation and never raise for a
      band that is missing; the failure shows when the description is
      evaluated.  An image handle is therefore modelled by what its
      evaluation yields: an error or a raster;
    - pixel values are modelled as exact rationals ([Qc]); rounding of the
      server's floating-point arithmetic is not modelled, and a masked
      pixel is [None]. *)

From Stdlib Require Import QArith Qcanon.
From Stdlib Require Qcabs.
From Stdlib Require Import Ascii.
From stdpp Require Import base option strings list pretty.

Local Open Scope string_scope.
Local Open Scope list_scope.

(** ** Python exceptions *)

Module Py.

(** The exceptions the modelled code can raise on the client side. *)
Inductive Exc : Type :=
| KeyError (key : string)
| IndexError
| EEException (msg : string).

(** A Python computation: raises or returns. *)
Definition M (A : Type) : Type := Exc + A.

Definition ret {A} (a : A) : M A := inr a.
Definition raise {A} (e : Exc) : M A := inl e.
Definition bind {A B} (m : M A) (k : A → M B) : M B :=
  match m with
  | inl e => inl e
  | inr a => k a
  end.

(** [try: m  except Exception: h]. *)
Definition try_except {A} (m : M A) (h : M A) : M A :=
  match m with
  | inl _ => h
  | inr a => inr a
  end.

(** [d[key]] on a dict whose entry [key] may be absent. *)
Definition getitem {A} (key : string) (entry : option A) : M A :=
  match entry with
  | Some v => ret v
  | None => raise (KeyError key)
  end.

(** [l[i]] on a list. *)
Definition index {A} (l : list A) (i : nat) : M A :=
  match l !! i with
  | Some v => ret v
  | None => raise IndexError
  end.

(** [d.get(key, default)]. *)
Definition get {A} (entry : option A) (default : A) : A :=
  match entry with
  | Some v => v
  | None => default
  end.

End Py.

Notation "x ←py m ; k" := (Py.bind m (λ x, k))
  (at level 20, m at level 100, k at level 200, only parsing).

(** ** The Earth Engine server, as far as the source uses it *)

Module ee.

(** A pixel, by the cell of the 10 m grid it covers. *)
Definition Pixel : Type := (Z * Z)%type.

(** One band: a value, or nothing where the pixel is masked. *)
Definition Band : Type := Pixel → option Qc.

(** An evaluated image: its bands in order, by name. *)
Definition Raster : Type := list (string * Band).

Inductive Error : Type :=
| NoBand (name : string)
| BandCountMismatch
| BadExpression
| UnboundVariable (x : string)
| TooManyPixels.

Definition message (e : Error) : string :=
  match e with
  | NoBand name => "No band named " +:+ name
  | BandCountMismatch => "Images must contain the same number of bands"
  | BadExpression => "Invalid expression"
  | UnboundVariable x => "Unrecognized variable " +:+ x
  | TooManyPixels => "Too many pixels in the region"
  end.

(** A deferred image, identified with the outcome of evaluating it. *)
Definition Image : Type := Error + Raster.

(** A region, as the set of grid cells it covers. *)
Definition Geometry : Type := list Pixel.

(** A scene of an image collection: its bands and the metadata the
    filters read.  Times are milliseconds since the epoch. *)
Record Scene : Type := {
  footprint : Geometry;
  time_start : Z;
  CLOUDY_PIXEL_PERCENTAGE : option Qc;
  bands : Raster
}.

Inductive BinOp : Type := OpAdd | OpSub | OpMul | OpDiv.

(** Parsed expression strings. *)
Inductive Expr : Type :=
| ENum (q : Qc)
| EVar (x : string)
| EBin (op : BinOp) (a b : Expr).

(** What the repository leaves to the server: the content of the image
    archives, the value of a pixel whose division has a zero divisor
    (the reference documentation says 0; [None] is a masked pixel), the
    parser of expression strings ([None] is a syntax error), and the
    square root. *)
Class Backend : Type := {
  ImageCollection : string → list Scene;
  div_by_zero : Qc → option Qc;
  parseExpression : string → option Expr;
  sqrt : Qc → Qc
}.

Definition names (r : Raster) : list string := r.*1.

Fixpoint lookup_band (name : string) (r : Raster) : option Band :=
  match r with
  | [] => None
  | (n, b) :: r' => if decide (n = name) then Some b else lookup_band name r'
  end.

Definition on_raster (i : Image) (k : Raster → Image) : Image :=
  match i with
  | inl e => inl e
  | inr r => k r
  end.

(** [image.select(name)]: the one band of that name. *)
Definition select (i : Image) (name : string) : Image :=
  on_raster i (λ r,
    match lookup_band name r with
    | Some b => inr [(name, b)]
    | None => inl (NoBand name)
    end).

(** [ee.Image.constant(q)], what a Python number is promoted to. *)
Definition constant (q : Qc) : Image := inr [("constant", λ _, Some q)].

(** [image.rename(name)] with a single new name. *)
Definition rename (i : Image) (name : string) : Image :=
  on_raster i (λ r,
    match r with
    | [(_, b)] => inr [(name, b)]
    | _ => inl BandCountMismatch
    end).

Section Arithmetic.
Context `{Backend}.

Definition pixel_div (x y : Qc) : option Qc :=
  if decide (y = 0%Qc) then div_by_zero x else Some (x / y)%Qc.

Definition pixel_op (op : BinOp) (x y : Qc) : option Qc :=
  match op with
  | OpAdd => Some (x + y)%Qc
  | OpSub => Some (x - y)%Qc
  | OpMul => Some (x * y)%Qc
  | OpDiv => pixel_div x y
  end.

Definition band_op (op : BinOp) (a b : Band) : Band :=
  λ p, x ← a p; y ← b p; pixel_op op x y.

(** Band matching of the binary image operators: a single-band
    operand is used against every band of the other one, otherwise
    the bands are paired in order; the result is named after the
    longer operand, or after the first one. *)
Definition raster_op (op : BinOp) (r1 r2 : Raster) : Image :=
  match r1, r2 with
  | [(n1, b1)], [(_, b2)] => inr [(n1, band_op op b1 b2)]
  | [(_, b1)], _ => inr (map (λ nb, (nb.1, band_op op b1 nb.2)) r2)
  | _, [(_, b2)] => inr (map (λ nb, (nb.1, band_op op nb.2 b2)) r1)
  | _, _ =>
      if decide (length r1 = length r2)
      then inr (zip_with (λ x y, (x.1, band_op op x.2 y.2)) r1 r2)
      else inl BandCountMismatch
  end.

Definition image_op (op : BinOp) (i1 i2 : Image) : Image :=
  on_raster i1 (λ r1, on_raster i2 (λ r2, raster_op op r1 r2)).

Definition add := image_op OpAdd.
Definition subtract := image_op OpSub.
Definition multiply := image_op OpMul.
Definition divide := image_op OpDiv.

(** Per pixel, [normalizedDifference]: (a - b) / (a + b), masked where
    either input is negative. *)
Definition normalized_difference_px (a b : Qc) : option Qc :=
  if decide ((a < 0)%Qc ∨ (b < 0)%Qc) then None
  else pixel_div (a - b)%Qc (a + b)%Qc.

(** [image.normalizedDifference([a, b])]: one band, named [nd]. *)
Definition normalizedDifference (i : Image) (a b : string) : Image :=
  on_raster i (λ r,
    match lookup_band a r with
    | None => inl (NoBand a)
    | Some ba =>
        match lookup_band b r with
        | None => inl (NoBand b)
        | Some bb =>
            inr [("nd", λ p, x ← ba p; y ← bb p; normalized_difference_px x y)]
        end
    end).

(** [image.expression(expr, band_map)]: the arguments are evaluated
    first, then the parsed expression over them; a variable outside
    the map is an error. *)
Fixpoint eval_expr (env : list (string * Raster)) (e : Expr) : Image :=
  match e with
  | ENum q => constant q
  | EVar x =>
      match list_find (λ xr, xr.1 = x) env with
      | Some (_, xr) => inr xr.2
      | None => inl (UnboundVariable x)
      end
  | EBin op a b => image_op op (eval_expr env a) (eval_expr env b)
  end.

Fixpoint eval_args (band_map : list (string * Image))
  : Error + list (string * Raster) :=
  match band_map with
  | [] => inr []
  | (x, i) :: rest =>
      match i with
      | inl e => inl e
      | inr r =>
          match eval_args rest with
          | inl e => inl e
          | inr env => inr ((x, r) :: env)
          end
      end
  end.

Definition expression (i : Image) (expr : string)
    (band_map : list (string * Image)) : Image :=
  on_raster i (λ _,
    match eval_args band_map with
    | inl e => inl e
    | inr env =>
        match parseExpression expr with
        | None => inl BadExpression
        | Some e => eval_expr env e
        end
    end).

End Arithmetic.

(** *** addBands

    [addBands(dstImg, srcImg)] with the default [overwrite = false]:
    every band of [srcImg] is appended to [dstImg]; a band whose name is
    taken is renamed with a numerical suffix ([foo] to [foo_1] unless
    [foo_1] exists, then [foo_2], and so on). *)

Definition suffixed (name : string) (k : nat) : string :=
  name +:+ "_" +:+ pretty (N.of_nat k).

Definition candidates (taken : list string) (name : string) : list string :=
  suffixed name <$> seq 1 (S (length taken)).

Definition fresh_name (taken : list string) (name : string) : string :=
  if decide (name ∈ taken)
  then default name (head (filter (λ c, c ∉ taken) (candidates taken name)))
  else name.

Definition add_band (dst : Raster) (nb : string * Band) : Raster :=
  (dst ++ [(fresh_name (names dst) nb.1, nb.2)])%list.

Definition addBands_raster (dst src : Raster) : Raster :=
  foldl add_band dst src.

Definition addBands (dst src : Image) : Image :=
  on_raster dst (λ d, on_raster src (λ s, inr (addBands_raster d s))).

(** [ee.Image(list)], the promotion of a Python list of images: the
    client combines them left to right with [addBands], and refuses an
    empty list. *)
Definition combine_ (images : list Image) : Py.M Image :=
  match images with
  | [] => Py.raise (Py.EEException "Can't combine 0 images.")
  | i :: rest => Py.ret (foldl addBands i rest)
  end.

(** [image.addBands(list)]. *)
Definition addBands_list (dst : Image) (images : list Image) : Py.M Image :=
  src ←py combine_ images; Py.ret (addBands dst src).

(** *** Collection filters *)

Definition intersects (g1 g2 : Geometry) : bool :=
  existsb (λ c, bool_decide (c ∈ g2)) g1.

(** [collection.filterBounds(geometry)]. *)
Definition filterBounds (c : list Scene) (g : Geometry) : list Scene :=
  filter (λ s, intersects (footprint s) g = true) c.

(** [collection.filterDate(start, end)]: on [system:time_start], the
    start inclusive and the end exclusive.  The list stands for the
    collection of a range the service accepts: a range that is empty (an
    end that is not after the start) is refused when the collection is
    evaluated, which a list cannot show. *)
Definition filterDate (c : list Scene) (start end_ : Z) : list Scene :=
  filter (λ s, (start ≤ time_start s)%Z ∧ (time_start s < end_)%Z) c.

(** [collection.filter(ee.Filter.lt(CLOUDY_PIXEL_PERCENTAGE, v))]: a
    scene without the property does not pass. *)
Definition property_lt (property : option Qc) (v : Qc) : bool :=
  match property with
  | Some x => bool_decide (x < v)%Qc
  | None => false
  end.

Definition filter_lt_cloudy (c : list Scene) (v : Qc) : list Scene :=
  filter (λ s, property_lt (CLOUDY_PIXEL_PERCENTAGE s) v = true) c.

(** *** reduceRegion

    The reducers see the pixels of the region that are not masked; on no
    such pixel their output is null. *)

Definition valid_values (b : Band) (g : Geometry) : list Qc := omap b g.

Definition total (values : list Qc) : Qc := foldr Qcplus 0%Qc values.

Definition count (values : list Qc) : Qc :=
  Q2Qc (inject_Z (Z.of_nat (length values))).

Definition lesser (x y : Qc) : Qc := if decide (x ≤ y)%Qc then x else y.
Definition greater (x y : Qc) : Qc := if decide (x ≤ y)%Qc then y else x.

Definition Reducer_mean (values : list Qc) : option Qc :=
  match values with
  | [] => None
  | _ => Some (total values / count values)%Qc
  end.

Definition Reducer_min (values : list Qc) : option Qc :=
  match values with
  | [] => None
  | v :: rest => Some (foldr lesser v rest)
  end.

Definition Reducer_max (values : list Qc) : option Qc :=
  match values with
  | [] => None
  | v :: rest => Some (foldr greater v rest)
  end.

Definition Reducer_stdDev `{Backend} (values : list Qc) : option Qc :=
  m ← Reducer_mean values;
  m2 ← Reducer_mean ((λ v, v * v)%Qc <$> values);
  Some (sqrt (m2 - m * m)%Qc).

(** [image.reduceRegion(mean + stdDev + minMax, geometry, scale=10,
    maxPixels=1e9)], fetched with [getInfo()]: a dict with the four
    outputs of every band.  The source fixes no order of the keys and
    reads the dict by key; the four outputs of a band are listed by key,
    as the service lists them. *)
Definition reduce_band `{Backend} (g : Geometry) (nb : string * Band)
    : list (string * option Qc) :=
  let values := valid_values nb.2 g in
  [ (nb.1 +:+ "_max", Reducer_max values);
    (nb.1 +:+ "_mean", Reducer_mean values);
    (nb.1 +:+ "_min", Reducer_min values);
    (nb.1 +:+ "_stdDev", Reducer_stdDev values) ].

Definition reduceRegion `{Backend} (i : Image) (g : Geometry)
    : Error + list (string * option Qc) :=
  match i with
  | inl e => inl e
  | inr r =>
      if decide (1000000000 < Z.of_nat (length g))%Z then inl TooManyPixels
      else inr (r ≫= reduce_band g)
  end.

(** [computed.getInfo()]: the round trip to the server, where a failed
    computation raises. *)
Definition getInfo {A} (computed : Error + A) : Py.M A :=
  match computed with
  | inl e => Py.raise (Py.EEException (message e))
  | inr a => Py.ret a
  end.

(** *** Unary operators, comparisons and masks *)

Definition band_map (f : Qc → Qc) (a : Band) : Band := λ p, f <$> a p.

(** [image.abs()]: every band, under its name. *)
Definition abs (i : Image) : Image :=
  on_raster i (λ r, inr ((λ nb, (nb.1, band_map Qcabs.Qcabs nb.2)) <$> r)).

Definition truth (P : Prop) `{Decision P} : Qc := if decide P then 1%Qc else 0%Qc.

(** The binary operators that are no arithmetic: they match bands as the
    arithmetic ones do. *)
Definition raster_zip (f : Band → Band → Band) (r1 r2 : Raster) : Image :=
  match r1, r2 with
  | [(n1, b1)], [(_, b2)] => inr [(n1, f b1 b2)]
  | [(_, b1)], _ => inr (map (λ nb, (nb.1, f b1 nb.2)) r2)
  | _, [(_, b2)] => inr (map (λ nb, (nb.1, f nb.2 b2)) r1)
  | _, _ =>
      if decide (length r1 = length r2)
      then inr (zip_with (λ x y, (x.1, f x.2 y.2)) r1 r2)
      else inl BandCountMismatch
  end.

Definition image_zip (f : Band → Band → Band) (i1 i2 : Image) : Image :=
  on_raster i1 (λ r1, on_raster i2 (λ r2, raster_zip f r1 r2)).

Definition pixelwise (f : Qc → Qc → Qc) (a b : Band) : Band :=
  λ p, x ← a p; y ← b p; Some (f x y).

(** [a.gt(b)], [a.lt(b)]: 1 where the first value is greater (less) than
    the second, 0 elsewhere.  [a.Or(b)]: 1 where either value is not 0. *)
Definition gt := image_zip (pixelwise (λ x y, truth (y < x)%Qc)).
Definition lt := image_zip (pixelwise (λ x y, truth (x < y)%Qc)).
Definition Or := image_zip (pixelwise (λ x y, truth (x ≠ 0%Qc ∨ y ≠ 0%Qc))).

(** [image.updateMask(mask)]: a pixel stays where the mask is there and
    is not 0. *)
Definition masked_by (a m : Band) : Band :=
  λ p, x ← a p; v ← m p; if decide (v = 0%Qc) then None else Some x.

Definition updateMask := image_zip masked_by.

End ee.

(** ** config/settings.py *)

(** An entry of [INDICES_CONFIG]: the keys the engine reads ([formula],
    [bands]) and the display keys of the catalog. *)
Record IndexCfg : Type := {
  cfg_name : string;
  cfg_formula : option string;
  cfg_bands : option (list string);
  cfg_category : string
}.

Definition entry (name formula : string) (bands : list string)
    (category : string) : IndexCfg :=
  {| cfg_name := name; cfg_formula := Some formula;
     cfg_bands := Some bands; cfg_category := category |}.

Definition INDICES_CONFIG : list (string * IndexCfg) :=
  [ ("NDVI", entry "Vegetation Index" "normalized_diff" ["B8"; "B4"] "Vegetation");
    ("EVI", entry "Enhanced Vegetation Index" "evi" ["B8"; "B4"; "B2"] "Vegetation");
    ("SAVI", entry "Soil-Adjusted Vegetation Index" "savi" ["B8"; "B4"] "Vegetation");
    ("NDRE", entry "Red Edge Vegetation Index" "normalized_diff" ["B8"; "B5"] "Vegetation");
    ("NDBI", entry "Built-up Index" "normalized_diff" ["B11"; "B8"] "Urban");
    ("UI", entry "Urban Index" "normalized_diff" ["B12"; "B8A"] "Urban");
    ("IBI", entry "Index-Based Built-up Index" "ibi" ["B11"; "B8"; "B3"; "B4"] "Urban");
    ("NDMI", entry "Moisture Index" "normalized_diff" ["B8"; "B11"] "Moisture");
    ("NDWI", entry "Water Index" "normalized_diff" ["B3"; "B8"] "Moisture");
    ("MNDWI", entry "Modified Water Index" "normalized_diff" ["B3"; "B11"] "Moisture");
    ("BSI", entry "Bare Soil Index" "bsi" ["B11"; "B4"; "B8"; "B2"] "Soil");
    ("RI", entry "Redness Index" "normalized_diff" ["B4"; "B3"] "Soil");
    ("NBR", entry "Normalized Burn Ratio" "normalized_diff" ["B8"; "B12"] "Fire");
    ("BAI", entry "Burned Area Index" "normalized_diff" ["B12"; "B8A"] "Fire") ].

(** A user-defined index, the dict built by the sidebar; every key may be
    absent. *)
Record CustomIndex : Type := {
  custom_name : option string;
  custom_formula : option string;
  custom_band_a : option string;
  custom_band_b : option string;
  custom_expression : option string;
  custom_expression_bands : option (list (string * string))
}.

(** [cfg.get('formula', 'normalized_diff')] and [cfg.get('bands', [])]. *)
Definition formula_of (cfg : IndexCfg) : string :=
  Py.get (cfg_formula cfg) "normalized_diff".
Definition bands_of (cfg : IndexCfg) : list string :=
  Py.get (cfg_bands cfg) [].

(** [custom.get('formula', 'normalized_diff')]. *)
Definition custom_formula_of (custom : CustomIndex) : string :=
  Py.get (custom_formula custom) "normalized_diff".

(** ** utils/gee_utils.py: class HeritageMonitor *)

Definition number (q : Q) : ee.Image := ee.constant (Q2Qc q).

Section HeritageMonitor.
Context `{ee.Backend}.

Definition get_sentinel2_collection (geometry : ee.Geometry)
    (start_date end_date : Z) (cloud_cover : Qc) : list ee.Scene :=
  let collection :=
    ee.filter_lt_cloudy
      (ee.filterDate
         (ee.filterBounds (ee.ImageCollection "COPERNICUS/S2_SR_HARMONIZED")
            geometry)
         start_date end_date)
      cloud_cover in
  collection.

Definition _compute_index (image : ee.Image) (name : string) (cfg : IndexCfg)
    : Py.M (option ee.Image) :=
  let formula := formula_of cfg in
  let bands := bands_of cfg in
  if decide (formula = "normalized_diff" ∧ (2 ≤ length bands)%nat) then
    b0 ←py Py.index bands 0;
    b1 ←py Py.index bands 1;
    Py.ret (Some (ee.rename (ee.normalizedDifference image b0 b1) name))
  else if decide (formula = "evi") then
    let nir := ee.divide (ee.select image "B8") (number 10000) in
    let red := ee.divide (ee.select image "B4") (number 10000) in
    let blue := ee.divide (ee.select image "B2") (number 10000) in
    let evi :=
      ee.divide
        (ee.multiply (ee.subtract nir red) (number 2.5))
        (ee.add
           (ee.subtract (ee.add nir (ee.multiply red (number 6)))
              (ee.multiply blue (number 7.5)))
           (number 1)) in
    Py.ret (Some (ee.rename evi name))
  else if decide (formula = "savi") then
    let L := 0.5%Q in
    let nir := ee.divide (ee.select image "B8") (number 10000) in
    let red := ee.divide (ee.select image "B4") (number 10000) in
    let savi :=
      ee.multiply
        (ee.divide (ee.subtract nir red) (ee.add (ee.add nir red) (number L)))
        (number (1 + L)%Q) in
    Py.ret (Some (ee.rename savi name))
  else if decide (formula = "bsi") then
    let swir := ee.select image "B11" in
    let red := ee.select image "B4" in
    let nir := ee.select image "B8" in
    let blue := ee.select image "B2" in
    let bsi :=
      ee.divide
        (ee.subtract (ee.add swir red) (ee.add nir blue))
        (ee.add (ee.add swir red) (ee.add nir blue)) in
    Py.ret (Some (ee.rename bsi name))
  else if decide (formula = "ibi") then
    let ndbi := ee.normalizedDifference image "B11" "B8" in
    let mndwi := ee.normalizedDifference image "B3" "B11" in
    let L := 0.5%Q in
    let nir := ee.divide (ee.select image "B8") (number 10000) in
    let red := ee.divide (ee.select image "B4") (number 10000) in
    let savi :=
      ee.multiply
        (ee.divide (ee.subtract nir red) (ee.add (ee.add nir red) (number L)))
        (number (1 + L)%Q) in
    let mean_savi_mndwi := ee.divide (ee.add savi mndwi) (number 2) in
    let ibi :=
      ee.divide (ee.subtract ndbi mean_savi_mndwi)
        (ee.add ndbi mean_savi_mndwi) in
    Py.ret (Some (ee.rename ibi name))
  else Py.ret None.

Definition _compute_custom_index (image : ee.Image) (custom : CustomIndex)
    : Py.M (option ee.Image) :=
  let name := Py.get (custom_name custom) "CUSTOM" in
  let formula := custom_formula_of custom in
  if decide (formula = "normalized_diff") then
    band_a ←py Py.getitem "band_a" (custom_band_a custom);
    band_b ←py Py.getitem "band_b" (custom_band_b custom);
    Py.ret (Some (ee.rename (ee.normalizedDifference image band_a band_b) name))
  else if decide (formula = "ratio") then
    band_a ←py Py.getitem "band_a" (custom_band_a custom);
    band_b ←py Py.getitem "band_b" (custom_band_b custom);
    Py.ret (Some (ee.rename
                    (ee.divide (ee.select image band_a) (ee.select image band_b))
                    name))
  else if decide (formula = "difference") then
    band_a ←py Py.getitem "band_a" (custom_band_a custom);
    band_b ←py Py.getitem "band_b" (custom_band_b custom);
    Py.ret (Some (ee.rename
                    (ee.subtract (ee.select image band_a) (ee.select image band_b))
                    name))
  else if decide (formula = "expression") then
    expr ←py Py.getitem "expression" (custom_expression custom);
    let expr_map := Py.get (custom_expression_bands custom) [] in
    let band_map := map (λ kv, (kv.1, ee.select image kv.2)) expr_map in
    Py.ret (Some (ee.rename (ee.expression image expr band_map) name))
  else Py.ret None.

(** One turn of either loop of [calculate_indices]: the [try] body
    appends the band unless it is [None]; [except Exception: pass]
    leaves the list as it was. *)
Definition stage (bands_to_add : list ee.Image)
    (computed : Py.M (option ee.Image)) : Py.M (list ee.Image) :=
  Py.try_except
    (band ←py computed;
     match band with
     | Some b => Py.ret (bands_to_add ++ [b])%list
     | None => Py.ret bands_to_add
     end)
    (Py.ret bands_to_add).

Fixpoint for_each {A} (body : list ee.Image → A → Py.M (list ee.Image))
    (items : list A) (bands_to_add : list ee.Image) : Py.M (list ee.Image) :=
  match items with
  | [] => Py.ret bands_to_add
  | x :: rest => acc ←py body bands_to_add x; for_each body rest acc
  end.

(** The two loops of [calculate_indices]: the value of [bands_to_add]
    when they are done.  The module global [INDICES_CONFIG] they iterate
    over is made explicit. *)
Definition staged_bands (catalog : list (string * IndexCfg))
    (image : ee.Image) (extra_indices : option (list CustomIndex))
    : Py.M (list ee.Image) :=
  bands_to_add ←py
    for_each (λ acc entry, stage acc (_compute_index image entry.1 entry.2))
      catalog [];
  match extra_indices with
  | Some (c :: cs) =>
      for_each (λ acc custom, stage acc (_compute_custom_index image custom))
        (c :: cs) bands_to_add
  | _ => Py.ret bands_to_add
  end.

Definition calculate_indices_with (catalog : list (string * IndexCfg))
    (image : ee.Image) (extra_indices : option (list CustomIndex))
    : Py.M ee.Image :=
  bands_to_add ←py staged_bands catalog image extra_indices;
  match bands_to_add with
  | _ :: _ => ee.addBands_list image bands_to_add
  | [] => Py.ret image
  end.

Definition calculate_indices (image : ee.Image)
    (extra_indices : option (list CustomIndex)) : Py.M ee.Image :=
  calculate_indices_with INDICES_CONFIG image extra_indices.

Definition calculate_statistics (image : ee.Image) (geometry : ee.Geometry)
    (index : string) : Py.M (list (string * option Qc)) :=
  let stats := ee.reduceRegion (ee.select image index) geometry in
  ee.getInfo stats.

Definition detect_changes (image1 image2 : ee.Image)
    (index : option string) (threshold : option Qc) : ee.Image :=
  let index := Py.get index "NDVI" in
  let threshold := Py.get threshold (Q2Qc 0.2) in
  let diff := ee.subtract (ee.select image2 index) (ee.select image1 index) in
  let change_mask := ee.gt (ee.abs diff) (ee.constant threshold) in
  ee.updateMask diff change_mask.

End HeritageMonitor.

(** ** utils/db_utils.py *)

(** What the Python runtime supplies: the float type with its [str], and
    [hashlib.sha256(s.encode()).hexdigest()]. *)
Class PyRuntime : Type := {
  float : Type;
  str_float : float → string;
  sha256_hexdigest : string → string
}.

(** [datetime.date] and its [str], the ISO form [YYYY-MM-DD]. *)
Record date : Type := { year : nat; month : nat; day : nat }.

Definition zero_padded (width n : nat) : string :=
  let digits := pretty (N.of_nat n) in
  String.concat "" (replicate (width - String.length digits) "0") +:+ digits.

Definition str_date (d : date) : string :=
  zero_padded 4 (year d) +:+ "-" +:+ zero_padded 2 (month d) +:+ "-"
  +:+ zero_padded 2 (day d).

Section Cache.
Context `{PyRuntime}.

(** The dict returned by [render_sidebar]. *)
Record AnalysisConfig : Type := {
  analysis_type : string;
  site_name : string;
  center_lat : float;
  center_lon : float;
  buffer_km : float;
  start_date : date;
  end_date : date;
  cloud_cover : Z;
  indices : list string;
  custom_indices : list CustomIndex;
  run_analysis : bool;
  change_threshold : float;
  sample_size : Z
}.

Definition hash_input (config : AnalysisConfig) : string :=
  site_name config +:+ "_" +:+ str_float (center_lat config) +:+ "_"
  +:+ str_float (center_lon config) +:+ "_"
  +:+ str_float (buffer_km config) +:+ "_"
  +:+ str_date (start_date config) +:+ "_"
  +:+ str_date (end_date config) +:+ "_"
  +:+ pretty (cloud_cover config).

Definition generate_params_hash (config : AnalysisConfig) : string :=
  sha256_hexdigest (hash_input config).

End Cache.

(** ** The formulas, per pixel, as the specification writes them *)

Section Formulas.
Context `{ee.Backend}.

(** X' = X / 10000. *)
Definition descaled (x : Qc) : Qc := (x / Q2Qc 10000)%Qc.

Definition quotient (x y : Qc) : option Qc := ee.pixel_div x y.

(** EVI = 2.5 x (NIR' - RED') / (NIR' + 6 x RED' - 7.5 x BLUE' + 1). *)
Definition EVI_px (blue red nir : Qc) : option Qc :=
  let NIR' := descaled nir in
  let RED' := descaled red in
  let BLUE' := descaled blue in
  quotient (Q2Qc 2.5 * (NIR' - RED'))%Qc
    (NIR' + Q2Qc 6 * RED' - Q2Qc 7.5 * BLUE' + 1)%Qc.

(** SAVI = (1 + L) x (NIR' - RED') / (NIR' + RED' + L), L = 0.5. *)
Definition SAVI_px (red nir : Qc) : option Qc :=
  let L := Q2Qc 0.5 in
  let NIR' := descaled nir in
  let RED' := descaled red in
  q ← quotient (NIR' - RED')%Qc (NIR' + RED' + L)%Qc;
  Some ((1 + L) * q)%Qc.

(** IBI = (NDBI - avg(SAVI, MNDWI)) / (NDBI + avg(SAVI, MNDWI)), with
    NDBI = normalized-difference(SWIR1, NIR) and
    MNDWI = normalized-difference(GREEN, SWIR1) on raw reflectance and
    SAVI on descaled reflectance. *)
Definition IBI_px (green red nir swir1 : Qc) : option Qc :=
  NDBI ← ee.normalized_difference_px swir1 nir;
  MNDWI ← ee.normalized_difference_px green swir1;
  SAVI ← SAVI_px red nir;
  let avg := ((SAVI + MNDWI) / Q2Qc 2)%Qc in
  quotient (NDBI - avg)%Qc (NDBI + avg)%Qc.

End Formulas.

(** ** Test data, and the claims that fail, as they are stated *)

(** A band with the same value at every pixel. *)
Definition uniform (q : Q) : ee.Band := λ _, Some (Q2Qc q).

(** The twelve bands of [SENTINEL2_BANDS], uniform. *)
Definition sentinel2_image : ee.Raster :=
  [ ("B1", uniform 300); ("B2", uniform 500); ("B3", uniform 800);
    ("B4", uniform 1000); ("B5", uniform 1500); ("B6", uniform 3000);
    ("B7", uniform 4000); ("B8", uniform 5000); ("B8A", uniform 5200);
    ("B9", uniform 900); ("B11", uniform 2000); ("B12", uniform 1200) ].

(** The same image without its red-edge band [B5]. *)
Definition truncated_image : ee.Raster :=
  filter (λ nb, nb.1 ≠ "B5") sentinel2_image.

(** The sidebar's default expression with its second variable left out
    of the map. *)
Definition unbound_custom : CustomIndex :=
  {| custom_name := Some "MY_IDX";
     custom_formula := Some "expression";
     custom_band_a := None;
     custom_band_b := None;
     custom_expression := Some "(NIR - RED) / (NIR + RED)";
     custom_expression_bands := Some [("NIR", "B8")] |}.

Definition ndvi_expr : ee.Expr :=
  ee.EBin ee.OpDiv
    (ee.EBin ee.OpSub (ee.EVar "NIR") (ee.EVar "RED"))
    (ee.EBin ee.OpAdd (ee.EVar "NIR") (ee.EVar "RED")).

(** A backend for the examples: an empty archive, zero-divisor pixels
    masked, a parser that knows the sidebar's default expression, and a
    square root that is right on 0 and 1. *)
Definition test_backend : ee.Backend :=
  {| ee.ImageCollection := λ _, [];
     ee.div_by_zero := λ _, None;
     ee.parseExpression := λ s,
       if decide (s = "(NIR - RED) / (NIR + RED)") then Some ndvi_expr else None;
     ee.sqrt := λ x, x |}.

(** The same backend with the division by zero of the reference
    documentation, which returns 0. *)
Definition zero_backend : ee.Backend :=
  {| ee.ImageCollection := λ _, [];
     ee.div_by_zero := λ _, Some 0%Qc;
     ee.parseExpression := λ _, None;
     ee.sqrt := λ x, x |}.

(** A region of 2 x 2 pixels. *)
Definition region : ee.Geometry := [(0, 0); (0, 1); (1, 0); (1, 1)]%Z.

(** An image whose red band is 0 everywhere, and the ratio B8 / B4. *)
Definition no_red_image : ee.Raster :=
  [ ("B4", uniform 0); ("B8", uniform 5000) ].

Definition ratio_custom : CustomIndex :=
  {| custom_name := Some "RATIO";
     custom_formula := Some "ratio";
     custom_band_a := Some "B8";
     custom_band_b := Some "B4";
     custom_expression := None;
     custom_expression_bands := None |}.

(** The statistics with their values as plain fractions. *)
Definition fractions (stats : Py.M (list (string * option Qc)))
    : Py.M (list (string * option Q)) :=
  Py.bind stats
    (λ d, Py.ret ((λ kv : string * option Qc, (kv.1, this <$> kv.2)) <$> d)).

(** A catalog entry of an unknown formula kind, and a custom definition
    of an unknown kind. *)
Definition unknown_entry : IndexCfg := entry "Tasseled Cap" "tasseled_cap" ["B8"; "B4"] "Vegetation".

Definition unknown_custom : CustomIndex :=
  {| custom_name := Some "PRODUCT";
     custom_formula := Some "product";
     custom_band_a := Some "B8";
     custom_band_b := Some "B4";
     custom_expression := None;
     custom_expression_bands := None |}.

(** A custom index that takes the name of a catalog index. *)
Definition ndvi_difference : CustomIndex :=
  {| custom_name := Some "NDVI";
     custom_formula := Some "difference";
     custom_band_a := Some "B8";
     custom_band_b := Some "B4";
     custom_expression := None;
     custom_expression_bands := None |}.

(** The rule of the specification, on one call: the band that a name
    designates in the returned image is the last band staged under that
    name. *)
Definition last_staged_wins `{ee.Backend}
    (image : ee.Image) (extra : option (list CustomIndex)) : Prop :=
  ∀ staged result pre name last post,
    staged_bands INDICES_CONFIG image extra = Py.ret staged →
    calculate_indices image extra = Py.ret (inr result) →
    staged = pre ++ inr [(name, last)] :: post →
    (∀ b, inr [(name, b)] ∉ post) →
    ∃ kept, ee.lookup_band name result = Some kept ∧ ∀ p, kept p = last p.

(** Scene [s1] comes before scene [s2] in the sequence only if it was not
    acquired later. *)
Definition ordered_by_time (scenes : list ee.Scene) : Prop :=
  ∀ i j s1 s2,
    (i < j)%nat → scenes !! i = Some s1 → scenes !! j = Some s2 →
    (ee.time_start s1 ≤ ee.time_start s2)%Z.

Definition cell (x y : Z) : ee.Geometry := [(x, y)].

Definition scene (at_ : ee.Geometry) (time : Z) (cloud : Q) : ee.Scene :=
  {| ee.footprint := at_; ee.time_start := time;
     ee.CLOUDY_PIXEL_PERCENTAGE := Some (Q2Qc cloud);
     ee.bands := sentinel2_image |}.

(** An archive listed by acquisition time, and one that lists a later
    scene first. *)
Definition ordered_archive : ee.Backend :=
  {| ee.ImageCollection := λ _,
       [scene (cell 0 0) 100 5; scene (cell 0 0) 200 60;
        scene (cell 7 7) 250 5; scene (cell 0 0) 300 10];
     ee.div_by_zero := λ _, None;
     ee.parseExpression := λ _, None;
     ee.sqrt := λ x, x |}.

Definition unordered_archive : ee.Backend :=
  {| ee.ImageCollection := λ _,
       [scene (cell 0 0) 300 10; scene (cell 0 0) 100 5];
     ee.div_by_zero := λ _, None;
     ee.parseExpression := λ _, None;
     ee.sqrt := λ x, x |}.

(** A runtime for the examples: floats as thousandths, printed with three
    decimals, and the identity for the digest. *)
Definition test_runtime : PyRuntime :=
  {| float := Z;
     str_float := λ z, pretty (z `div` 1000)%Z +:+ "." +:+ zero_padded 3 (Z.to_nat (z `mod` 1000)%Z);
     sha256_hexdigest := λ s, s |}.

Definition alba_iulia (selected : list string) (run : bool)
    : @AnalysisConfig test_runtime :=
  @Build_AnalysisConfig test_runtime
    "Comprehensive Analysis" "Alba Iulia Fortress (Romania)"
    46069%Z 23571%Z 2000%Z
    {| year := 2024; month := 3; day := 1 |}
    {| year := 2026; month := 3; day := 1 |}
    20 selected [] run 200%Z 20.

(** ** What a catalog entry reads *)

(** The formula kinds [_compute_index] knows, with the two band references
    the first of them needs. *)
Definition evaluable (cfg : IndexCfg) : Prop :=
  (formula_of cfg = "normalized_diff" ∧ (2 ≤ length (bands_of cfg))%nat)
  ∨ formula_of cfg ∈ ["evi"; "savi"; "bsi"; "ibi"].

(** The bands of the image that [_compute_index] selects for an entry. *)
Definition required_bands (cfg : IndexCfg) : list string :=
  if decide (formula_of cfg = "normalized_diff") then take 2 (bands_of cfg)
  else if decide (formula_of cfg = "evi") then ["B8"; "B4"; "B2"]
  else if decide (formula_of cfg = "savi") then ["B8"; "B4"]
  else if decide (formula_of cfg = "bsi") then ["B11"; "B4"; "B8"; "B2"]
  else if decide (formula_of cfg = "ibi") then ["B11"; "B8"; "B3"; "B4"]
  else [].

(** ** ui/tabs/change_tab.py: the masks of the change map *)

Record ChangeMasks : Type := {
  change_mask : ee.Image;
  r_band : ee.Image;
  g_band : ee.Image;
  b_band : ee.Image
}.

Definition change_masks `{ee.Backend} (first_image last_image : ee.Image)
    (change_index : string) (threshold : Qc) : ChangeMasks :=
  let diff :=
    ee.subtract (ee.select last_image change_index)
      (ee.select first_image change_index) in
  let decrease_mask := ee.lt diff (ee.constant (- threshold)%Qc) in
  let increase_mask := ee.gt diff (ee.constant threshold) in
  {| change_mask := ee.Or decrease_mask increase_mask;
     r_band :=
       ee.add (ee.multiply (number 255) decrease_mask)
         (ee.multiply (number 0) increase_mask);
     g_band := number 0;
     b_band :=
       ee.add (ee.multiply (number 0) decrease_mask)
         (ee.multiply (number 255) increase_mask) |}.

(** ** ui/sidebar.py: the list of custom indices *)

(** [c['name']]. *)
Definition name_of (c : CustomIndex) : Py.M string :=
  Py.getitem "name" (custom_name c).

(** [[c for c in custom_indices if c['name'] != name]]. *)
Fixpoint without_name (name : string) (custom_indices : list CustomIndex)
    : Py.M (list CustomIndex) :=
  match custom_indices with
  | [] => Py.ret []
  | c :: rest =>
      n ←py name_of c;
      kept ←py without_name name rest;
      Py.ret (if decide (n ≠ name) then c :: kept else kept)
  end.

(** The button "Add Custom Index to Analysis": the session's list of
    custom indices (absent at first) and the selected indices, after the
    click.  The definition is the dict the form has built, which is never
    empty, so that only the name decides. *)
Definition add_custom_index (custom_name : string)
    (custom_index_def : CustomIndex)
    (custom_indices : option (list CustomIndex)) (indices : list string)
    : Py.M (option (list CustomIndex) * list string) :=
  if decide (custom_name ≠ "") then
    let current := Py.get custom_indices [] in
    kept ←py without_name custom_name current;
    Py.ret (Some (kept ++ [custom_index_def]), indices ++ [custom_name])
  else Py.ret (custom_indices, indices).

(** The button that removes the custom index [ci] of the list. *)
Definition remove_custom_index (ci : CustomIndex)
    (custom_indices : list CustomIndex) : Py.M (list CustomIndex) :=
  match custom_indices with
  | [] => Py.ret []
  | _ => name ←py name_of ci; without_name name custom_indices
  end.

(** The end of [render_sidebar]: the selected indices followed by the
    names of the custom indices that are not among them yet. *)
Fixpoint append_missing (all_indices : list string)
    (custom_indices : list CustomIndex) : Py.M (list string) :=
  match custom_indices with
  | [] => Py.ret all_indices
  | ci :: rest =>
      n ←py name_of ci;
      append_missing
        (if decide (n ∈ all_indices) then all_indices else all_indices ++ [n])
        rest
  end.

Definition all_indices (indices : list string)
    (custom_indices : option (list CustomIndex)) : Py.M (list string) :=
  append_missing indices (Py.get custom_indices []).

(** The names of a list of definitions that all have one. *)
Definition custom_names (custom_indices : list CustomIndex) : list string :=
  omap custom_name custom_indices.

(** ** Changes, per pixel *)

(** The change between two bands at a pixel: their difference where it
    exceeds the threshold in absolute value, nothing elsewhere. *)
Definition change_band (threshold : Qc) (A1 A2 : ee.Band) : ee.Band :=
  λ p, v2 ← A2 p; v1 ← A1 p;
       if decide (threshold < Qcabs.Qcabs (v2 - v1))%Qc
       then Some (v2 - v1)%Qc else None.

(** ** Names after addBands *)

(** [name'] is [name] with one numerical suffix. *)
Definition suffixed_once (name name' : string) : Prop :=
  ∃ k, name' = ee.suffixed name k.

(** [name'] is [name], or [name] with one numerical suffix, or with two:
    what the two steps of [image.addBands(list)] (the list combined, then
    added to the image) can make of a name. *)
Definition renamed_from (name name' : string) : Prop :=
  name' = name
  ∨ suffixed_once name name'
  ∨ ∃ mid, suffixed_once name mid ∧ suffixed_once mid name'.

(** ** Strings, as far as the cache key needs them *)

(** The characters of a string, and the ten digits. *)
Definition chars : string → list ascii := String.list_ascii_of_string.

Definition digit_chars : list ascii := chars "0123456789".

(** The strings written with the digits and the characters [extra]. *)
Definition written_in (extra : list ascii) (s : string) : Prop :=
  Forall (λ c, c ∈ digit_chars ++ extra) (chars s).

(** The number a string of digits writes, read from the left. *)
Fixpoint digits_value (acc : N) (s : string) : N :=
  match s with
  | EmptyString => acc
  | String c rest => digits_value (10 * acc + (N_of_ascii c - 48))%N rest
  end.

(** ** app.py, ui/tabs/report_tab.py: statistics of the selected indices *)

(** The dict [calculate_statistics] returns. *)
Definition Stats : Type := list (string * option Qc).

(** [d[key] = value] and [d.get(key)] on a dict, kept in insertion
    order. *)
Fixpoint setitem {V} (key : string) (value : V) (d : list (string * V))
    : list (string * V) :=
  match d with
  | [] => [(key, value)]
  | (k, v) :: rest =>
      if decide (k = key) then (key, value) :: rest
      else (k, v) :: setitem key value rest
  end.

Fixpoint item {V} (key : string) (d : list (string * V)) : option V :=
  match d with
  | [] => None
  | (k, v) :: rest => if decide (k = key) then Some v else item key rest
  end.

Section Analysis.
Context `{ee.Backend}.

(** [main]: the loop that fills [results_to_save]; a failing
    [calculate_statistics] ends it. *)
Fixpoint results_to_save (image_with_indices : ee.Image) (aoi : ee.Geometry)
    (indices : list string) (results : list (string * Stats))
    : Py.M (list (string * Stats)) :=
  match indices with
  | [] => Py.ret results
  | idx :: rest =>
      stats ←py calculate_statistics image_with_indices aoi idx;
      results_to_save image_with_indices aoi rest (setitem idx stats results)
  end.

(** [render_report_tab]: the loop that fills [indices_stats]; a failing
    [calculate_statistics] leaves the empty dict. *)
Fixpoint indices_stats (indices_image : ee.Image) (aoi : ee.Geometry)
    (indices : list string) (results : list (string * Stats))
    : Py.M (list (string * Stats)) :=
  match indices with
  | [] => Py.ret results
  | idx :: rest =>
      results ←py
        Py.try_except
          (stats ←py calculate_statistics indices_image aoi idx;
           Py.ret (setitem idx stats results))
          (Py.ret (setitem idx [] results));
      indices_stats indices_image aoi rest results
  end.

End Analysis.

(** [stats.get(key, 0)], the number a metric of the report shows. *)
Definition shown (stats : Stats) (key : string) : option Qc :=
  Py.get (item key stats) (Some 0%Qc).

(** The four keys of the statistics of an index, which the tabs read. *)
Definition statistics_keys (idx : string) : list string :=
  [idx +:+ "_mean"; idx +:+ "_stdDev"; idx +:+ "_min"; idx +:+ "_max"].

(** ** The bare soil index, per pixel *)

(** BSI = ((SWIR1 + RED) - (NIR + BLUE)) / ((SWIR1 + RED) + (NIR + BLUE)),
    on raw reflectance. *)
Definition BSI_px `{ee.Backend} (blue red nir swir1 : Qc) : option Qc :=
  quotient (swir1 + red - (nir + blue))%Qc (swir1 + red + (nir + blue))%Qc.

(** * Properties *)

(** Membership of a known string in a literal list. *)
Ltac known_kind :=
  match goal with
  | Heq : ?f = _ |- ?f ∈ _ =>
      rewrite Heq; apply list_elem_of_In; simpl; tauto
  | Heq : ?f = _ ∧ _ |- ?f ∈ _ =>
      rewrite (proj1 Heq); apply list_elem_of_In; simpl; tauto
  end.

(** ** Appending strings *)

Lemma append_cons c (s t : string) : String c s +:+ t = String c (s +:+ t).
Proof. reflexivity. Qed.

Lemma append_assoc (s t u : string) : s +:+ (t +:+ u) = (s +:+ t) +:+ u.
Proof. induction s as [| c s IH]; [done |]. rewrite !append_cons. by rewrite IH. Qed.

Lemma append_nil_l (s : string) : "" +:+ s = s.
Proof. reflexivity. Qed.

Lemma append_nil_r (s : string) : s +:+ "" = s.
Proof. induction s as [| c s IH]; [done |]. rewrite append_cons. by rewrite IH. Qed.

(** ** Python-level behaviour of the evaluator *)

Section Evaluator.
Context `{ee.Backend}.

Lemma stage_returns bands_to_add computed :
  ∃ acc, stage bands_to_add computed = Py.ret acc.
Proof.
  unfold stage. destruct computed as [e | [b |]]; simpl; eauto.
Qed.

Lemma stage_None bands_to_add :
  stage bands_to_add (Py.ret None) = Py.ret bands_to_add.
Proof. reflexivity. Qed.

Lemma stage_Some bands_to_add b :
  stage bands_to_add (Py.ret (Some b)) = Py.ret (bands_to_add ++ [b])%list.
Proof. reflexivity. Qed.

Lemma stage_raise bands_to_add e :
  stage bands_to_add (Py.raise e) = Py.ret bands_to_add.
Proof. reflexivity. Qed.

Lemma for_each_app {A} (body : list ee.Image → A → Py.M (list ee.Image))
    xs ys acc :
  for_each body (xs ++ ys) acc
  = Py.bind (for_each body xs acc) (for_each body ys).
Proof.
  revert acc. induction xs as [| x xs IH]; intros acc; simpl; [done |].
  destruct (body acc x) as [e | acc']; simpl; [done | apply IH].
Qed.

Lemma for_each_stage_returns {A} (f : A → Py.M (option ee.Image)) xs acc :
  ∃ acc', for_each (λ a x, stage a (f x)) xs acc = Py.ret acc'.
Proof.
  revert acc. induction xs as [| x xs IH]; intros acc; simpl; [by eexists |].
  destruct (stage_returns acc (f x)) as [acc1 ->]. simpl. apply IH.
Qed.

(** Staging only ever appends: what was staged stays a prefix. *)
Lemma for_each_stage_prefix {A} (f : A → Py.M (option ee.Image)) xs acc acc' :
  for_each (λ a x, stage a (f x)) xs acc = Py.ret acc' →
  ∃ more, acc' = (acc ++ more)%list.
Proof.
  revert acc. induction xs as [| x xs IH]; intros acc; simpl.
  - intros [= <-]. exists []. by rewrite app_nil_r.
  - unfold stage at 1.
    destruct (f x) as [e | [b |]]; simpl; intros Hrest.
    + by apply IH.
    + apply IH in Hrest as [more ->]. exists (b :: more).
      by rewrite <- app_assoc.
    + by apply IH.
Qed.

Lemma staged_bands_returns catalog image extra :
  ∃ acc, staged_bands catalog image extra = Py.ret acc.
Proof.
  unfold staged_bands.
  destruct (for_each_stage_returns
              (λ entry : string * IndexCfg, _compute_index image entry.1 entry.2)
              catalog []) as [acc ->].
  simpl. destruct extra as [[| c cs] |]; [by eexists | | by eexists].
  apply (for_each_stage_returns (_compute_custom_index image) (c :: cs)).
Qed.

(** [calculate_indices] never raises. *)
Lemma calculate_indices_with_returns catalog image extra :
  ∃ result, calculate_indices_with catalog image extra = Py.ret result.
Proof.
  unfold calculate_indices_with.
  destruct (staged_bands_returns catalog image extra) as [acc ->]. simpl.
  destruct acc; simpl; by eexists.
Qed.

Lemma _compute_index_unknown image name cfg :
  formula_of cfg ∉ ["normalized_diff"; "evi"; "savi"; "bsi"; "ibi"] ∨
  (formula_of cfg = "normalized_diff" ∧ length (bands_of cfg) < 2) →
  _compute_index image name cfg = Py.ret None.
Proof.
  intros Hkind. unfold _compute_index.
  repeat case_decide; try done; exfalso;
    destruct Hkind as [Hnot | [Heq Hlen]];
    try (apply Hnot; known_kind); try lia; try congruence.
Qed.

Lemma _compute_custom_index_unknown image custom :
  custom_formula_of custom
    ∉ ["normalized_diff"; "ratio"; "difference"; "expression"] →
  _compute_custom_index image custom = Py.ret None.
Proof.
  intros Hnot. unfold _compute_custom_index.
  repeat case_decide; try done; exfalso; apply Hnot; known_kind.
Qed.

End Evaluator.

(** ** The compositor *)

Section Compositor.
Context `{ee.Backend}.

(** The second loop runs over the extra definitions, if any. *)
Lemma staged_bands_loops catalog image extra :
  staged_bands catalog image extra
  = Py.bind
      (for_each (λ acc entry, stage acc (_compute_index image entry.1 entry.2))
         catalog [])
      (for_each (λ acc custom, stage acc (_compute_custom_index image custom))
         (default [] extra)).
Proof.
  unfold staged_bands. f_equal.
  destruct extra as [[| c cs] |]; reflexivity.
Qed.

Lemma staged_bands_skip_catalog pre name cfg post image extra :
  _compute_index image name cfg = Py.ret None →
  staged_bands (pre ++ (name, cfg) :: post) image extra
  = staged_bands (pre ++ post) image extra.
Proof.
  intros Hnone. rewrite !staged_bands_loops, !for_each_app. f_equal.
  destruct (for_each _ pre []) as [e | acc]; simpl; [done |].
  by rewrite Hnone, stage_None.
Qed.

Lemma staged_bands_skip_custom catalog image pre custom post :
  _compute_custom_index image custom = Py.ret None →
  staged_bands catalog image (Some (pre ++ custom :: post))
  = staged_bands catalog image (Some (pre ++ post)).
Proof.
  intros Hnone. rewrite !staged_bands_loops. simpl.
  destruct (for_each _ catalog []) as [e | acc0]; simpl; [done |].
  rewrite !for_each_app.
  destruct (for_each _ pre acc0) as [e | acc]; simpl; [done |].
  by rewrite Hnone, stage_None.
Qed.

(** Server side, [addBands] is strict: an operand that fails makes the
    sum fail. *)
Lemma addBands_failed_src dst e : ∃ e', ee.addBands dst (inl e) = inl e'.
Proof. destruct dst; simpl; eauto. Qed.

Lemma foldl_addBands_failed_acc e images :
  foldl ee.addBands (inl e) images = inl e.
Proof. induction images; simpl; auto. Qed.

Lemma foldl_addBands_failed acc images e :
  inl e ∈ images → ∃ e', foldl ee.addBands acc images = inl e'.
Proof.
  revert acc. induction images as [| i images IH]; intros acc Hin.
  - by apply elem_of_nil in Hin.
  - apply elem_of_cons in Hin as [<- | Hin]; simpl.
    + destruct (addBands_failed_src acc e) as [e' ->].
      exists e'. apply foldl_addBands_failed_acc.
    + by apply IH.
Qed.

(** One staged band whose evaluation fails makes the image returned by
    [calculate_indices] fail as a whole. *)
Lemma failed_band_fails_image catalog image extra staged e :
  staged_bands catalog image extra = Py.ret staged →
  inl e ∈ staged →
  ∃ e', calculate_indices_with catalog image extra = Py.ret (inl e').
Proof.
  intros Hstaged Hin. unfold calculate_indices_with. rewrite Hstaged. simpl.
  destruct staged as [| i rest]; [by apply elem_of_nil in Hin |].
  unfold ee.addBands_list. simpl.
  assert (∃ e', foldl ee.addBands i rest = inl e') as [e' ->].
  { apply elem_of_cons in Hin as [<- | Hin].
    - exists e. apply foldl_addBands_failed_acc.
    - by apply (foldl_addBands_failed _ _ e). }
  destruct (addBands_failed_src image e') as [e'' ->]. by exists e''.
Qed.

End Compositor.

(** ** One failing index and the image as a whole *)

(** C1. The specification wants [calculate_indices] to leave out the one
    index whose band is missing or whose expression has an unbound
    variable, and to return the input bands with all other indices.  The
    call returns, but the failure is not raised inside the [try]: it stays
    in the description of the band, and the returned image fails as a
    whole when it is evaluated, so that the statistics of an index whose
    bands are all there (NDVI) raise as well.  Shown on the twelve-band
    image without [B5] (the catalog's NDRE reads it), and on the full
    image with the default expression whose variable RED is not mapped. *)
Theorem calculate_indices_failure_not_isolated `{ee.Backend} :
  ee.parseExpression "(NIR - RED) / (NIR + RED)" = Some ndvi_expr →
  (calculate_indices (inr truncated_image) None = Py.ret (inl (ee.NoBand "B5"))
   ∧ calculate_statistics (inl (ee.NoBand "B5")) region "NDVI"
     = Py.raise (Py.EEException "No band named B5"))
  ∧ (calculate_indices (inr sentinel2_image) (Some [unbound_custom])
     = Py.ret (inl (ee.UnboundVariable "RED"))
     ∧ calculate_statistics (inl (ee.UnboundVariable "RED")) region "NDVI"
       = Py.raise (Py.EEException "Unrecognized variable RED")).
Proof.
  intros Hparse. split; [split; reflexivity |]. split; [| reflexivity].
  destruct H as [archive zero parse root]. simpl in Hparse.
  vm_compute. rewrite Hparse. reflexivity.
Qed.

Lemma calculate_indices_failure_not_isolated_witness :
  (@calculate_indices test_backend (inr truncated_image) None
   = Py.ret (inl (ee.NoBand "B5"))
   ∧ @calculate_statistics test_backend (inl (ee.NoBand "B5")) region "NDVI"
     = Py.raise (Py.EEException "No band named B5"))
  ∧ (@calculate_indices test_backend (inr sentinel2_image) (Some [unbound_custom])
     = Py.ret (inl (ee.UnboundVariable "RED"))
     ∧ @calculate_statistics test_backend (inl (ee.UnboundVariable "RED"))
         region "NDVI"
       = Py.raise (Py.EEException "Unrecognized variable RED")).
Proof.
  apply (@calculate_indices_failure_not_isolated test_backend). reflexivity.
Defined.

(** C10. A predefined definition whose formula kind is none of
    normalized_diff, evi, savi, bsi, ibi, or is normalized_diff with fewer
    than two band references, and a custom definition whose kind is none
    of normalized_diff, ratio, difference, expression, is silently left
    out: its evaluation returns [None] without raising, and
    [calculate_indices] returns what it returns without that definition. *)
Theorem unknown_formula_silently_omitted `{ee.Backend}
    (image : ee.Image) (name : string) (cfg : IndexCfg) (custom : CustomIndex) :
  formula_of cfg ∉ ["normalized_diff"; "evi"; "savi"; "bsi"; "ibi"] ∨
    (formula_of cfg = "normalized_diff" ∧ length (bands_of cfg) < 2) →
  custom_formula_of custom
    ∉ ["normalized_diff"; "ratio"; "difference"; "expression"] →
  (_compute_index image name cfg = Py.ret None
   ∧ ∀ pre post extra,
       calculate_indices_with (pre ++ (name, cfg) :: post) image extra
       = calculate_indices_with (pre ++ post) image extra)
  ∧ (_compute_custom_index image custom = Py.ret None
     ∧ ∀ catalog pre post,
         calculate_indices_with catalog image (Some (pre ++ custom :: post))
         = calculate_indices_with catalog image (Some (pre ++ post))).
Proof.
  intros Hcfg Hcustom.
  pose proof (_compute_index_unknown image name cfg Hcfg) as Hnone.
  pose proof (_compute_custom_index_unknown image custom Hcustom) as Hnone'.
  repeat split; try done.
  - intros pre post extra. unfold calculate_indices_with.
    by rewrite (staged_bands_skip_catalog pre name cfg post image extra Hnone).
  - intros catalog pre post. unfold calculate_indices_with.
    by rewrite (staged_bands_skip_custom catalog image pre custom post Hnone').
Qed.

Lemma unknown_formula_silently_omitted_witness :
  (@_compute_index test_backend (inr sentinel2_image) "TC" unknown_entry
   = Py.ret None
   ∧ ∀ pre post extra,
       @calculate_indices_with test_backend
         (pre ++ ("TC", unknown_entry) :: post) (inr sentinel2_image) extra
       = @calculate_indices_with test_backend (pre ++ post)
           (inr sentinel2_image) extra)
  ∧ (@_compute_custom_index test_backend (inr sentinel2_image) unknown_custom
     = Py.ret None
     ∧ ∀ catalog pre post,
         @calculate_indices_with test_backend catalog (inr sentinel2_image)
           (Some (pre ++ unknown_custom :: post))
         = @calculate_indices_with test_backend catalog (inr sentinel2_image)
             (Some (pre ++ post))).
Proof.
  apply (@unknown_formula_silently_omitted test_backend).
  - left. vm_compute. intros Hin.
    repeat (apply elem_of_cons in Hin as [Heq | Hin]; [discriminate Heq |]).
    by apply elem_of_nil in Hin.
  - vm_compute. intros Hin.
    repeat (apply elem_of_cons in Hin as [Heq | Hin]; [discriminate Heq |]).
    by apply elem_of_nil in Hin.
Defined.

(** C9. For the formula kinds evi, savi, bsi and ibi the evaluator does
    not look at the definition's band list: two definitions of the same
    one of these kinds give the same band, whatever their [bands]. *)
Theorem fixed_formula_ignores_bands `{ee.Backend}
    (image : ee.Image) (name : string) (cfg1 cfg2 : IndexCfg) :
  formula_of cfg1 ∈ ["evi"; "savi"; "bsi"; "ibi"] →
  formula_of cfg2 = formula_of cfg1 →
  _compute_index image name cfg1 = _compute_index image name cfg2.
Proof.
  intros Hkind Hsame. unfold _compute_index. rewrite Hsame.
  repeat (apply elem_of_cons in Hkind as [-> | Hkind]; [reflexivity |]).
  by apply elem_of_nil in Hkind.
Qed.

Lemma fixed_formula_ignores_bands_witness :
  @_compute_index test_backend (inr sentinel2_image) "EVI"
    (entry "Enhanced Vegetation Index" "evi" ["B8"; "B4"; "B2"] "Vegetation")
  = @_compute_index test_backend (inr sentinel2_image) "EVI"
      (entry "Enhanced Vegetation Index" "evi" ["B12"; "B1"] "Vegetation").
Proof.
  apply (@fixed_formula_ignores_bands test_backend).
  - apply list_elem_of_here.
  - reflexivity.
Defined.

(** ** The band algebra on single bands *)

Section BandAlgebra.
Context `{ee.Backend}.

Lemma select_found r name b :
  ee.lookup_band name r = Some b → ee.select (inr r) name = inr [(name, b)].
Proof. intros Hb. unfold ee.select. simpl. by rewrite Hb. Qed.

Lemma select_missing r name :
  ee.lookup_band name r = None → ee.select (inr r) name = inl (ee.NoBand name).
Proof. intros Hb. unfold ee.select. simpl. by rewrite Hb. Qed.

Lemma image_op_single op n1 b1 n2 b2 :
  ee.image_op op (inr [(n1, b1)]) (inr [(n2, b2)])
  = inr [(n1, ee.band_op op b1 b2)].
Proof. reflexivity. Qed.

Lemma rename_single n b name :
  ee.rename (inr [(n, b)]) name = inr [(name, b)].
Proof. reflexivity. Qed.

Lemma normalizedDifference_found r a b ba bb :
  ee.lookup_band a r = Some ba → ee.lookup_band b r = Some bb →
  ee.normalizedDifference (inr r) a b
  = inr [("nd", λ p, x ← ba p; y ← bb p; ee.normalized_difference_px x y)].
Proof. intros Ha Hb. unfold ee.normalizedDifference. simpl. by rewrite Ha, Hb. Qed.

Lemma pixel_div_nonzero x y :
  y ≠ 0%Qc → ee.pixel_div x y = Some (x / y)%Qc.
Proof. intros Hy. unfold ee.pixel_div. by case_decide. Qed.

Lemma Q2Qc_nonzero (q : Q) : ¬ (q == 0)%Q → Q2Qc q ≠ 0%Qc.
Proof. intros Hq Heq. by apply Q2Qc_eq_iff in Heq. Qed.

Lemma descale_px x :
  ee.pixel_div x (Q2Qc 10000) = Some (descaled x).
Proof. apply pixel_div_nonzero, Q2Qc_nonzero. discriminate. Qed.

Lemma halve_px x :
  ee.pixel_div x (Q2Qc 2) = Some (x / Q2Qc 2)%Qc.
Proof. apply pixel_div_nonzero, Q2Qc_nonzero. discriminate. Qed.

End BandAlgebra.

(** ** The fixed formulas against their per-pixel definitions *)

Lemma one_plus_L : Q2Qc (1 + 0.5) = (1 + Q2Qc 0.5)%Qc.
Proof. apply Qc_is_canon. reflexivity. Qed.

(** Evaluate the pixel operations from the outside in, splitting on every
    quotient whose divisor may be zero. *)
Ltac pixelwise :=
  repeat first
    [ reflexivity
    | progress cbn [ee.pixel_op mbind option_bind]
    | rewrite descale_px
    | rewrite halve_px
    | match goal with
      | |- context [?o ≫= _] =>
          lazymatch o with
          | ee.pixel_div _ _ => destruct o
          | ee.normalized_difference_px _ _ => destruct o
          end
      end ].

(** Both sides are a quotient of ring-equal operands. *)
Ltac same_quotient :=
  unfold quotient; rewrite ?one_plus_L; f_equal;
  first [ ring | field; apply Q2Qc_nonzero; discriminate ].

(** C7. On an image with bands B2, B4 and B8 the EVI band is, at every
    pixel, 2.5 x (NIR' - RED') / (NIR' + 6 x RED' - 7.5 x BLUE' + 1) with
    each primed value the raw value divided by 10000. *)
Theorem EVI_band_formula `{ee.Backend}
    (r : ee.Raster) (name : string) (cfg : IndexCfg) (B2 B4 B8 : ee.Band) :
  formula_of cfg = "evi" →
  ee.lookup_band "B2" r = Some B2 →
  ee.lookup_band "B4" r = Some B4 →
  ee.lookup_band "B8" r = Some B8 →
  ∃ evi,
    _compute_index (inr r) name cfg = Py.ret (Some (inr [(name, evi)]))
    ∧ ∀ p, evi p = (blue ← B2 p; red ← B4 p; nir ← B8 p; EVI_px blue red nir).
Proof.
  intros Hkind H2 H4 H8. unfold _compute_index. rewrite Hkind.
  destruct (decide _) as [[Heq _] | _]; [discriminate Heq |].
  destruct (decide _) as [_ | Hne]; [| done].
  unfold ee.add, ee.subtract, ee.multiply, ee.divide, number, ee.constant.
  rewrite (select_found _ _ _ H2), (select_found _ _ _ H4),
    (select_found _ _ _ H8).
  rewrite !image_op_single, rename_single.
  eexists. split; [reflexivity |].
  intros p. unfold ee.band_op.
  destruct (B2 p) as [blue |], (B4 p) as [red |], (B8 p) as [nir |].
  all: unfold EVI_px; pixelwise. same_quotient.
Qed.

Lemma EVI_band_formula_witness :
  ∃ evi,
    @_compute_index test_backend (inr sentinel2_image) "EVI"
      (entry "Enhanced Vegetation Index" "evi" ["B8"; "B4"; "B2"] "Vegetation")
    = Py.ret (Some (inr [("EVI", evi)]))
    ∧ ∀ p, evi p = (blue ← uniform 500 p; red ← uniform 1000 p;
                    nir ← uniform 5000 p; @EVI_px test_backend blue red nir).
Proof.
  apply (@EVI_band_formula test_backend sentinel2_image); reflexivity.
Defined.

(** C2. On an image with bands B3, B4, B8 and B11 the IBI band is, at
    every pixel, (NDBI - avg(SAVI, MNDWI)) / (NDBI + avg(SAVI, MNDWI)),
    with NDBI and MNDWI the normalized differences of the raw values of
    (B11, B8) and (B3, B11), and SAVI taken on the values divided by 10000
    with L = 0.5. *)
Theorem IBI_band_formula `{ee.Backend}
    (r : ee.Raster) (name : string) (cfg : IndexCfg) (B3 B4 B8 B11 : ee.Band) :
  formula_of cfg = "ibi" →
  ee.lookup_band "B3" r = Some B3 →
  ee.lookup_band "B4" r = Some B4 →
  ee.lookup_band "B8" r = Some B8 →
  ee.lookup_band "B11" r = Some B11 →
  ∃ ibi,
    _compute_index (inr r) name cfg = Py.ret (Some (inr [(name, ibi)]))
    ∧ ∀ p, ibi p = (green ← B3 p; red ← B4 p; nir ← B8 p; swir1 ← B11 p;
                    IBI_px green red nir swir1).
Proof.
  intros Hkind H3 H4 H8 H11. unfold _compute_index. rewrite Hkind.
  destruct (decide _) as [[Heq _] | _]; [discriminate Heq |].
  do 3 (destruct (decide _) as [Heq | _]; [discriminate Heq |]).
  destruct (decide _) as [_ | Hne]; [| done].
  unfold ee.add, ee.subtract, ee.multiply, ee.divide, number, ee.constant.
  rewrite (select_found _ _ _ H4), (select_found _ _ _ H8).
  rewrite (normalizedDifference_found _ _ _ _ _ H11 H8),
    (normalizedDifference_found _ _ _ _ _ H3 H11).
  rewrite !image_op_single, rename_single.
  eexists. split; [reflexivity |].
  intros p. unfold ee.band_op, IBI_px, SAVI_px, quotient.
  destruct (B3 p) as [green |], (B4 p) as [red |], (B8 p) as [nir |],
    (B11 p) as [swir1 |].
  all: pixelwise. same_quotient.
Qed.

Lemma IBI_band_formula_witness :
  ∃ ibi,
    @_compute_index test_backend (inr sentinel2_image) "IBI"
      (entry "Index-Based Built-up Index" "ibi" ["B11"; "B8"; "B3"; "B4"] "Urban")
    = Py.ret (Some (inr [("IBI", ibi)]))
    ∧ ∀ p, ibi p = (green ← uniform 800 p; red ← uniform 1000 p;
                    nir ← uniform 5000 p; swir1 ← uniform 2000 p;
                    @IBI_px test_backend green red nir swir1).
Proof.
  apply (@IBI_band_formula test_backend sentinel2_image); reflexivity.
Defined.

(** ** addBands: names stay unique and a taken name is never reassigned *)

Section AddBands.

#[local] Instance suffixed_inj name : Inj (=) (=) (ee.suffixed name).
Proof.
  intros j k Heq. unfold ee.suffixed in Heq.
  apply (inj (String.app name)) in Heq.
  apply (inj (String.app "_")) in Heq.
  apply (inj pretty) in Heq. lia.
Qed.

Lemma candidates_NoDup taken name : NoDup (ee.candidates taken name).
Proof.
  unfold ee.candidates.
  apply (NoDup_fmap_2 (ee.suffixed name)).
  apply NoDup_seq.
Qed.

(** Among one candidate more than there are taken names, one is free. *)
Lemma fresh_name_not_taken taken name : ee.fresh_name taken name ∉ taken.
Proof.
  unfold ee.fresh_name. case_decide; [| done].
  destruct (filter (λ c, c ∉ taken) (ee.candidates taken name))
    as [| c free] eqn:Hfree.
  - exfalso.
    assert (length (ee.candidates taken name) ≤ length taken)%nat as Hle.
    { apply submseteq_length, NoDup_submseteq; [apply candidates_NoDup |].
      intros c Hc. destruct (decide (c ∈ taken)) as [| Hnot]; [done |].
      by destruct (filter_nil_not_elem_of _ _ c Hfree Hnot). }
    unfold ee.candidates in Hle.
    rewrite length_fmap, length_seq in Hle. lia.
  - simpl.
    assert (c ∈ filter (λ c, c ∉ taken) (ee.candidates taken name)) as Hc
      by (rewrite Hfree; apply list_elem_of_here).
    by apply list_elem_of_filter in Hc as [Hc _].
Qed.

Lemma fresh_name_free taken name :
  name ∉ taken → ee.fresh_name taken name = name.
Proof. intros Hfree. unfold ee.fresh_name. by case_decide. Qed.

Lemma names_add_band dst nb :
  ee.names (ee.add_band dst nb)
  = ee.names dst ++ [ee.fresh_name (ee.names dst) nb.1].
Proof. unfold ee.add_band, ee.names. by rewrite fmap_app. Qed.

Lemma add_band_NoDup dst nb :
  NoDup (ee.names dst) → NoDup (ee.names (ee.add_band dst nb)).
Proof.
  intros Hdst. rewrite names_add_band. apply NoDup_app.
  split; [done |]. split; [| apply NoDup_singleton].
  intros n Hn Hfresh. apply list_elem_of_singleton in Hfresh as ->.
  by apply (fresh_name_not_taken (ee.names dst) nb.1).
Qed.

Lemma addBands_raster_NoDup dst src :
  NoDup (ee.names dst) → NoDup (ee.names (ee.addBands_raster dst src)).
Proof.
  revert dst. induction src as [| nb src IH]; intros dst Hdst; simpl; [done |].
  by apply IH, add_band_NoDup.
Qed.

Lemma lookup_band_app name r1 r2 :
  ee.lookup_band name (r1 ++ r2)
  = match ee.lookup_band name r1 with
    | Some b => Some b
    | None => ee.lookup_band name r2
    end.
Proof.
  induction r1 as [| [n b] r1 IH]; simpl; [done |]. by case_decide.
Qed.

Lemma lookup_band_None name r :
  ee.lookup_band name r = None ↔ name ∉ ee.names r.
Proof.
  unfold ee.names. induction r as [| [n b] r IH]; simpl.
  - split; [intros _; apply not_elem_of_nil | done].
  - rewrite not_elem_of_cons. case_decide as Hn.
    + split; [discriminate | intros [Hne _]; by destruct Hne].
    + rewrite IH. split; [intros Hr; split; [congruence | exact Hr] |].
      by intros [_ Hr].
Qed.

(** A band that is in the image keeps its name and its pixels. *)
Lemma add_band_keeps dst nb name b :
  ee.lookup_band name dst = Some b →
  ee.lookup_band name (ee.add_band dst nb) = Some b.
Proof. intros Hb. unfold ee.add_band. by rewrite lookup_band_app, Hb. Qed.

Lemma addBands_raster_keeps dst src name b :
  ee.lookup_band name dst = Some b →
  ee.lookup_band name (ee.addBands_raster dst src) = Some b.
Proof.
  revert dst. induction src as [| nb src IH]; intros dst Hb; simpl; [done |].
  by apply IH, add_band_keeps.
Qed.

(** Without a collision nothing is renamed. *)
Lemma addBands_raster_disjoint dst src :
  NoDup (ee.names dst ++ ee.names src) →
  ee.addBands_raster dst src = dst ++ src.
Proof.
  revert dst. induction src as [| [n b] src IH]; intros dst Hnd; simpl.
  - by rewrite app_nil_r.
  - assert (n ∉ ee.names dst) as Hfree.
    { apply NoDup_app in Hnd as (_ & Hdisj & _). intros Hn.
      apply (Hdisj n Hn). apply list_elem_of_here. }
    unfold ee.add_band at 1. simpl. rewrite (fresh_name_free _ _ Hfree).
    rewrite IH; [by rewrite <- app_assoc |].
    unfold ee.names in *. rewrite fmap_app, <- app_assoc. exact Hnd.
Qed.

Lemma addBands_raster_app dst src1 src2 :
  ee.addBands_raster dst (src1 ++ src2)
  = ee.addBands_raster (ee.addBands_raster dst src1) src2.
Proof. apply foldl_app. Qed.

(** Combining single bands that all evaluate is adding them one by one. *)
Lemma foldl_addBands_evaluated acc rasters :
  foldl ee.addBands (inr acc) (inr <$> rasters)
  = inr (foldl ee.addBands_raster acc rasters).
Proof.
  revert acc. induction rasters as [| r rasters IH]; intros acc; simpl; [done |].
  apply IH.
Qed.

Lemma foldl_addBands_raster_singles acc (src : ee.Raster) :
  foldl ee.addBands_raster acc ((λ nb, [nb]) <$> src)
  = ee.addBands_raster acc src.
Proof.
  revert acc. induction src as [| nb src IH]; intros acc; simpl; [done |].
  apply IH.
Qed.

Lemma addBands_raster_prefix dst src :
  ∃ added, ee.addBands_raster dst src = dst ++ added.
Proof.
  revert dst. induction src as [| nb src IH]; intros dst; simpl.
  - exists []. by rewrite app_nil_r.
  - destruct (IH (ee.add_band dst nb)) as [added ->]. unfold ee.add_band.
    eexists. by rewrite <- app_assoc.
Qed.

Lemma suffixed_once_ne name name' : suffixed_once name name' → name' ≠ name.
Proof.
  intros [k ->] Heq. unfold ee.suffixed in Heq.
  rewrite <- (append_nil_r name) in Heq at 2.
  apply (inj (String.app name)) in Heq. discriminate Heq.
Qed.

Lemma suffixed_twice_ne name mid name' :
  suffixed_once name mid → suffixed_once mid name' → name' ≠ name.
Proof.
  intros [k ->] [j ->] Heq. unfold ee.suffixed in Heq.
  rewrite <- append_assoc in Heq.
  rewrite <- (append_nil_r name) in Heq at 2.
  apply (inj (String.app name)) in Heq. discriminate Heq.
Qed.

Lemma fresh_name_shape taken name :
  ee.fresh_name taken name = name
  ∨ suffixed_once name (ee.fresh_name taken name).
Proof.
  unfold ee.fresh_name. case_decide; [| by left].
  destruct (filter (λ c, c ∉ taken) (ee.candidates taken name))
    as [| c free] eqn:Hfree; [by left |].
  right. simpl.
  assert (c ∈ filter (λ c, c ∉ taken) (ee.candidates taken name)) as Hc
    by (rewrite Hfree; apply list_elem_of_here).
  apply list_elem_of_filter in Hc as [_ Hc]. unfold ee.candidates in Hc.
  apply list_elem_of_fmap in Hc as (k & -> & _). by exists k.
Qed.

Lemma fresh_name_taken taken name :
  name ∈ taken → suffixed_once name (ee.fresh_name taken name).
Proof.
  intros Htaken. destruct (fresh_name_shape taken name) as [Heq | Hsuffixed];
    [| done].
  destruct (fresh_name_not_taken taken name). by rewrite Heq.
Qed.

(** Every name of the image after [addBands] is a name it had, or a name
    of the source, or such a name with a suffix. *)
Lemma names_addBands_raster dst src n' :
  n' ∈ ee.names (ee.addBands_raster dst src) →
  n' ∈ ee.names dst
  ∨ ∃ n, n ∈ ee.names src ∧ (n' = n ∨ suffixed_once n n').
Proof.
  revert dst. induction src as [| [n b] src IH]; intros dst; simpl; [by left |].
  intros [Hdst | (m & Hm & Hshape)]%IH.
  - rewrite names_add_band in Hdst. apply elem_of_app in Hdst as [Hdst | Hnew];
      [by left |].
    apply list_elem_of_singleton in Hnew as ->. right. exists n.
    split; [apply list_elem_of_here |]. apply fresh_name_shape.
  - right. exists m. split; [by apply list_elem_of_further | done].
Qed.

(** A name of the source is a name of the image after [addBands]: given
    to the band that brought it, or taken before. *)
Lemma names_addBands_raster_held dst src n :
  n ∈ ee.names src → n ∈ ee.names (ee.addBands_raster dst src).
Proof.
  revert dst. induction src as [| [m b] src IH]; intros dst Hn;
    [by apply elem_of_nil in Hn |].
  simpl in *. apply elem_of_cons in Hn as [-> | Hn]; [| by apply IH].
  destruct (addBands_raster_prefix (ee.add_band dst (m, b)) src) as [added ->].
  unfold ee.names. rewrite fmap_app. apply elem_of_app. left.
  fold (ee.names (ee.add_band dst (m, b))). rewrite names_add_band.
  apply elem_of_app. simpl.
  destruct (decide (m ∈ ee.names dst)) as [Hin | Hfree]; [by left |].
  right. rewrite (fresh_name_free _ _ Hfree). apply list_elem_of_here.
Qed.

Lemma names_addBands_raster_dst dst src n :
  n ∈ ee.names dst → n ∈ ee.names (ee.addBands_raster dst src).
Proof.
  intros Hn. destruct (addBands_raster_prefix dst src) as [added ->].
  unfold ee.names in *. rewrite fmap_app. apply elem_of_app. by left.
Qed.

Lemma addBands_raster_snoc dst src nb :
  ee.addBands_raster dst (src ++ [nb])
  = ee.addBands_raster dst src
    ++ [(ee.fresh_name (ee.names (ee.addBands_raster dst src)) nb.1, nb.2)].
Proof. by rewrite addBands_raster_app. Qed.

(** Where the band staged after [s1] lands: under the name that the two
    steps give it. *)
Lemma addBands_raster_twice_lookup r0 s1 name b s2 :
  let mid := ee.fresh_name (ee.names (ee.addBands_raster [] s1)) name in
  let name' :=
    ee.fresh_name
      (ee.names (ee.addBands_raster r0 (ee.addBands_raster [] s1))) mid in
  ee.lookup_band name'
    (ee.addBands_raster r0 (ee.addBands_raster [] (s1 ++ (name, b) :: s2)))
  = Some b.
Proof.
  intros mid name'.
  change (s1 ++ (name, b) :: s2) with (s1 ++ [(name, b)] ++ s2).
  rewrite app_assoc, (addBands_raster_app [] (s1 ++ [(name, b)]) s2).
  destruct (addBands_raster_prefix (ee.addBands_raster [] (s1 ++ [(name, b)])) s2)
    as [added ->].
  rewrite (addBands_raster_app r0). apply addBands_raster_keeps.
  rewrite (addBands_raster_snoc [] s1), (addBands_raster_snoc r0).
  cbn [fst snd]. fold mid. fold name'.
  rewrite lookup_band_app.
  assert (ee.lookup_band name'
            (ee.addBands_raster r0 (ee.addBands_raster [] s1)) = None) as ->
    by apply lookup_band_None, fresh_name_not_taken.
  simpl. by case_decide.
Qed.

End AddBands.

(** ** Name collisions in the image returned by the compositor *)

Section Collisions.
Context `{ee.Backend}.

Lemma combine_singles nb (src : ee.Raster) :
  foldl ee.addBands (inr [nb]) ((λ x, inr [x]) <$> src)
  = inr (ee.addBands_raster [] (nb :: src)).
Proof.
  change ((λ x, inr [x]) <$> src)
    with (@inr ee.Error ee.Raster ∘ (λ x : string * ee.Band, [x]) <$> src).
  rewrite list_fmap_compose.
  rewrite foldl_addBands_evaluated, foldl_addBands_raster_singles.
  simpl. unfold ee.add_band. simpl.
  rewrite fresh_name_free by apply not_elem_of_nil. by destruct nb.
Qed.

Lemma calculate_indices_with_evaluated catalog r0 extra r :
  calculate_indices_with catalog (inr r0) extra = Py.ret (inr r) →
  ∃ staged,
    staged_bands catalog (inr r0) extra = Py.ret staged
    ∧ match staged with
      | [] => r = r0
      | i :: rest =>
          ∃ c, foldl ee.addBands i rest = inr c ∧ r = ee.addBands_raster r0 c
      end.
Proof.
  unfold calculate_indices_with.
  destruct (staged_bands_returns catalog (inr r0) extra) as [staged ->].
  simpl. intros Hresult. exists staged. split; [done |].
  destruct staged as [| i rest]; [by injection Hresult as -> |].
  unfold ee.addBands_list in Hresult. simpl in Hresult.
  destruct (foldl ee.addBands i rest) as [e | c]; [discriminate Hresult |].
  exists c. split; [done |]. simpl in Hresult. by injection Hresult as <-.
Qed.

End Collisions.

(** C4, as stated, fails: with the custom index NDVI = B8 - B4 staged
    after the catalog's NDVI, the band named NDVI in the returned image is
    the catalog's (2/3 on the uniform image), not the custom one (4000). *)
Lemma last_staged_wins_fails :
  ¬ @last_staged_wins test_backend (inr sentinel2_image) (Some [ndvi_difference]).
Proof.
  intros Hclaim.
  pose (staged :=
          match @staged_bands test_backend INDICES_CONFIG (inr sentinel2_image)
                  (Some [ndvi_difference]) with
          | inr l => l
          | inl _ => []
          end).
  pose (result :=
          match @calculate_indices test_backend (inr sentinel2_image)
                  (Some [ndvi_difference]) with
          | inr (inr r) => r
          | _ => []
          end).
  destruct (Hclaim staged result (take 14 staged) "NDVI"
              (@ee.band_op test_backend ee.OpSub (uniform 5000) (uniform 1000)) [])
    as (kept & Hkept & Hsame).
  - reflexivity.
  - reflexivity.
  - reflexivity.
  - intros b. apply not_elem_of_nil.
  - vm_compute in Hkept. injection Hkept as <-.
    specialize (Hsame (0, 0)%Z). vm_compute in Hsame. discriminate Hsame.
Qed.

(** C4, amended.  Band names stay unique in the image returned by
    [calculate_indices], but a collision is not resolved in favour of the
    last band.  Every band of the input image keeps its name and pixels.
    Every staged band is in the returned image with its pixels, under its
    name or under its name with one or two numerical suffixes: not under
    its name when that is a name of the input image or of a band staged
    before it, and under its name when that is neither a name of the input
    image nor, with or without suffixes, a name staged before it. *)
Theorem name_collision_first_holder_wins `{ee.Backend}
    (catalog : list (string * IndexCfg)) (r0 : ee.Raster)
    (extra : option (list CustomIndex)) (r : ee.Raster) :
  calculate_indices_with catalog (inr r0) extra = Py.ret (inr r) →
  NoDup (ee.names r0) →
  NoDup (ee.names r)
  ∧ (∀ name b, ee.lookup_band name r0 = Some b → ee.lookup_band name r = Some b)
  ∧ (∀ s1 name b s2,
       staged_bands catalog (inr r0) extra
       = Py.ret ((λ nb, inr [nb]) <$> (s1 ++ (name, b) :: s2)) →
       ∃ name',
         ee.lookup_band name' r = Some b
         ∧ renamed_from name name'
         ∧ (name ∈ ee.names r0 ∨ name ∈ ee.names s1 → name' ≠ name)
         ∧ (name ∉ ee.names r0 →
            (∀ n, n ∈ ee.names s1 → ¬ renamed_from n name) →
            name' = name)).
Proof.
  intros Hresult Hunique.
  destruct (calculate_indices_with_evaluated _ _ _ _ Hresult)
    as (staged & Hstaged & Hr).
  split; [| split].
  - destruct staged as [| i rest]; [by subst r |].
    destruct Hr as (c & _ & ->). by apply addBands_raster_NoDup.
  - intros name b Hb. destruct staged as [| i rest]; [by subst r |].
    destruct Hr as (c & _ & ->). by apply addBands_raster_keeps.
  - intros s1 name b s2 Hsingles.
    rewrite Hstaged in Hsingles. injection Hsingles as ->.
    destruct (s1 ++ (name, b) :: s2) as [| nb src] eqn:Hsrc;
      [by destruct s1 |].
    simpl in Hr. destruct Hr as (c & Hc & ->).
    rewrite combine_singles in Hc. injection Hc as <-.
    change (ee.addBands_raster (ee.add_band [] nb) src)
      with (ee.addBands_raster [] (nb :: src)).
    rewrite <- Hsrc. clear Hresult Hstaged Hsrc nb src.
    set (held := ee.names (ee.addBands_raster [] s1)).
    set (taken := ee.names (ee.addBands_raster r0 (ee.addBands_raster [] s1))).
    exists (ee.fresh_name taken (ee.fresh_name held name)).
    split; [apply addBands_raster_twice_lookup |].
    pose proof (fresh_name_shape held name) as Hmid.
    pose proof (fresh_name_taken held name) as Hmid_taken.
    pose proof (fresh_name_free held name) as Hmid_free.
    set (mid := ee.fresh_name held name) in *.
    pose proof (fresh_name_shape taken mid) as Hlast.
    pose proof (fresh_name_taken taken mid) as Hlast_taken.
    pose proof (fresh_name_free taken mid) as Hlast_free.
    set (last := ee.fresh_name taken mid) in *.
    clearbody mid last.
    assert (∀ n, n ∈ held →
              ∃ m, m ∈ ee.names s1 ∧ (n = m ∨ suffixed_once m n)) as Hheld.
    { intros n [Hnil | Hn]%names_addBands_raster; [| done].
      by apply elem_of_nil in Hnil. }
    assert (∀ n, n ∈ taken →
              n ∈ ee.names r0
              ∨ ∃ m, m ∈ held ∧ (n = m ∨ suffixed_once m n)) as Htaken
      by (intros n; apply names_addBands_raster).
    split; [| split].
    + destruct Hmid as [-> | Hmid], Hlast as [-> | Hlast].
      * by left.
      * right. by left.
      * right. by left.
      * right. right. by exists mid.
    + intros Hin.
      assert (suffixed_once name mid ∨ (mid = name ∧ name ∈ taken))
        as [Hsuffixed | [-> Hname]].
      { destruct Hin as [Hin | Hin].
        - destruct Hmid as [-> | Hmid]; [| by left]. right. split; [done |].
          by apply names_addBands_raster_dst.
        - left. by apply Hmid_taken, names_addBands_raster_held. }
      * destruct Hlast as [-> | Hlast];
          [by apply suffixed_once_ne | by apply (suffixed_twice_ne name mid)].
      * by apply suffixed_once_ne, Hlast_taken.
    + intros Hinput Hfree.
      assert (name ∉ held) as Hname.
      { intros (n & Hn & Hshape)%Hheld. apply (Hfree n Hn).
        destruct Hshape as [-> | Hshape]; [by left | right; by left]. }
      rewrite (Hmid_free Hname) in *. apply Hlast_free.
      intros [Hr0 | (m & (n & Hn & Hm)%Hheld & Hshape)]%Htaken; [done |].
      apply (Hfree n Hn).
      destruct Hshape as [-> | Hshape], Hm as [-> | Hm].
      * by left.
      * right. by left.
      * right. by left.
      * right. right. by exists m.
Qed.

Lemma name_collision_first_holder_wins_witness :
  ∃ r,
    @calculate_indices_with test_backend
      [("NDVI", entry "Vegetation Index" "normalized_diff" ["B8"; "B4"] "Vegetation")]
      (inr sentinel2_image) (Some [ndvi_difference]) = Py.ret (inr r)
    ∧ NoDup (ee.names r)
    ∧ ee.lookup_band "B8" r = Some (uniform 5000)
    ∧ ee.lookup_band "NDVI" r
      = Some (λ p, x ← uniform 5000 p; y ← uniform 1000 p;
                   @ee.normalized_difference_px test_backend x y)
    ∧ ∃ name',
        ee.lookup_band name' r
        = Some (@ee.band_op test_backend ee.OpSub (uniform 5000) (uniform 1000))
        ∧ renamed_from "NDVI" name' ∧ name' ≠ "NDVI".
Proof.
  eexists. split; [reflexivity |].
  assert (NoDup (ee.names sentinel2_image)) as Hunique
    by (apply (bool_decide_unpack _); vm_compute; exact I).
  pose proof (@name_collision_first_holder_wins test_backend
                [("NDVI", entry "Vegetation Index" "normalized_diff"
                            ["B8"; "B4"] "Vegetation")]
                sentinel2_image (Some [ndvi_difference]) _ eq_refl Hunique)
    as (Hnames & Hkept & Hstaged).
  split; [exact Hnames |]. split; [by apply Hkept |]. split.
  - destruct (Hstaged [] "NDVI"
                (λ p, x ← uniform 5000 p; y ← uniform 1000 p;
                      @ee.normalized_difference_px test_backend x y)
                [("NDVI", @ee.band_op test_backend ee.OpSub (uniform 5000)
                            (uniform 1000))] eq_refl)
      as (name' & Hband & _ & _ & Hfree).
    assert ("NDVI" ∉ ee.names sentinel2_image) as Hinput
      by (apply (bool_decide_unpack _); vm_compute; exact I).
    assert (name' = "NDVI") as Heq
      by (apply Hfree; [exact Hinput | intros n Hn; by apply elem_of_nil in Hn]).
    rewrite Heq in Hband. exact Hband.
  - destruct (Hstaged [("NDVI", λ p, x ← uniform 5000 p; y ← uniform 1000 p;
                                  @ee.normalized_difference_px test_backend x y)]
                "NDVI"
                (@ee.band_op test_backend ee.OpSub (uniform 5000) (uniform 1000))
                [] eq_refl)
      as (name' & Hband & Hshape & Htaken & _).
    exists name'. split; [exact Hband |]. split; [exact Hshape |].
    apply Htaken. right. apply list_elem_of_here.
Defined.

(** ** The collection query *)

Lemma ordered_by_time_cons s scenes :
  ordered_by_time (s :: scenes)
  ↔ (∀ s', s' ∈ scenes → (ee.time_start s ≤ ee.time_start s')%Z)
    ∧ ordered_by_time scenes.
Proof.
  split.
  - intros Hord. split.
    + intros s' Hin. apply list_elem_of_lookup in Hin as [j Hj].
      apply (Hord 0%nat (S j)); [lia | done | done].
    + intros i j s1 s2 Hlt Hi Hj. apply (Hord (S i) (S j)); [lia | done | done].
  - intros [Hhead Htail] i j s1 s2 Hlt Hi Hj.
    destruct j as [| j]; [lia |]. simpl in Hj.
    destruct i as [| i]; simpl in Hi.
    + injection Hi as <-. by apply Hhead, list_elem_of_lookup_2 with j.
    + apply (Htail i j); [lia | done | done].
Qed.

Lemma ordered_by_time_filter (P : ee.Scene → Prop) `{!∀ s, Decision (P s)}
    scenes :
  ordered_by_time scenes → ordered_by_time (filter P scenes).
Proof.
  induction scenes as [| s scenes IH]; [done |].
  intros [Hhead Htail]%ordered_by_time_cons. rewrite filter_cons.
  case_decide; [| by apply IH].
  apply ordered_by_time_cons. split; [| by apply IH].
  intros s' [_ Hin]%list_elem_of_filter. by apply Hhead.
Qed.

Section Query.
Context `{ee.Backend}.

Lemma get_sentinel2_collection_elem geometry start_date end_date cloud_cover s :
  s ∈ get_sentinel2_collection geometry start_date end_date cloud_cover
  ↔ s ∈ ee.ImageCollection "COPERNICUS/S2_SR_HARMONIZED"
    ∧ ee.intersects (ee.footprint s) geometry = true
    ∧ (start_date ≤ ee.time_start s < end_date)%Z
    ∧ ∃ x, ee.CLOUDY_PIXEL_PERCENTAGE s = Some x ∧ (x < cloud_cover)%Qc.
Proof.
  unfold get_sentinel2_collection, ee.filter_lt_cloudy, ee.filterDate,
    ee.filterBounds.
  rewrite !list_elem_of_filter. unfold ee.property_lt.
  destruct (ee.CLOUDY_PIXEL_PERCENTAGE s) as [x |].
  - rewrite bool_decide_eq_true. split.
    + intros (Hx & Hdate & Hgeo & Hin). do 3 (split; [done |]). by exists x.
    + intros (Hin & Hgeo & Hdate & (x' & [= <-] & Hx)). done.
  - split; [intros (Hx & _); discriminate Hx |].
    intros (_ & _ & _ & (x & Hx & _)). discriminate Hx.
Qed.

(** The end of the date range is exclusive: a scene acquired at
    [end_date] itself is not returned. *)
Lemma get_sentinel2_collection_end_exclusive geometry start_date end_date
    cloud_cover s :
  s ∈ get_sentinel2_collection geometry start_date end_date cloud_cover →
  ee.time_start s ≠ end_date.
Proof. intros (_ & _ & Hdate & _)%get_sentinel2_collection_elem. lia. Qed.

End Query.

(** C5. Every scene returned by the query intersects the geometry, was
    acquired within [start_date, end_date], and has a cloud cover strictly
    below the ceiling. *)
Theorem query_results_pass_filters `{ee.Backend}
    (geometry : ee.Geometry) (start_date end_date : Z) (cloud_cover : Qc)
    (s : ee.Scene) :
  s ∈ get_sentinel2_collection geometry start_date end_date cloud_cover →
  ee.intersects (ee.footprint s) geometry = true
  ∧ (start_date ≤ ee.time_start s ≤ end_date)%Z
  ∧ ∃ x, ee.CLOUDY_PIXEL_PERCENTAGE s = Some x ∧ (x < cloud_cover)%Qc.
Proof.
  intros (_ & Hgeo & Hdate & Hcloud)%get_sentinel2_collection_elem.
  split; [done |]. split; [lia | done].
Qed.

Lemma query_results_pass_filters_witness :
  ee.intersects (ee.footprint (scene (cell 0 0) 100 5)) (cell 0 0) = true
  ∧ (0 ≤ ee.time_start (scene (cell 0 0) 100 5) ≤ 1000)%Z
  ∧ ∃ x, ee.CLOUDY_PIXEL_PERCENTAGE (scene (cell 0 0) 100 5) = Some x
         ∧ (x < Q2Qc 20)%Qc.
Proof.
  apply (@query_results_pass_filters ordered_archive (cell 0 0) 0 1000 (Q2Qc 20)).
  apply list_elem_of_here.
Defined.

(** C6, as stated, fails: nothing in the query sorts.  On an archive that
    lists a scene of time 300 before a scene of time 100, the query
    returns them in that order. *)
Lemma query_not_ordered_by_time :
  ¬ ordered_by_time
      (@get_sentinel2_collection unordered_archive (cell 0 0) 0 1000 (Q2Qc 20)).
Proof.
  intros Hord.
  specialize (Hord 0%nat 1%nat (scene (cell 0 0) 300 10) (scene (cell 0 0) 100 5)).
  simpl in Hord.
  assert (300 ≤ 100)%Z; [| lia].
  apply Hord; [lia | reflexivity | reflexivity].
Qed.

(** C6, amended.  The query returns the qualifying scenes, and only
    them, in the order in which the archive lists them: its output is a
    subsequence of the archive, on every archive.  It is ordered by
    acquisition time whenever the archive is. *)
Theorem query_keeps_archive_order `{ee.Backend}
    (geometry : ee.Geometry) (start_date end_date : Z) (cloud_cover : Qc) :
  get_sentinel2_collection geometry start_date end_date cloud_cover
    `sublist_of` ee.ImageCollection "COPERNICUS/S2_SR_HARMONIZED"
  ∧ (∀ s, s ∈ get_sentinel2_collection geometry start_date end_date cloud_cover
          ↔ s ∈ ee.ImageCollection "COPERNICUS/S2_SR_HARMONIZED"
            ∧ ee.intersects (ee.footprint s) geometry = true
            ∧ (start_date ≤ ee.time_start s < end_date)%Z
            ∧ ∃ x, ee.CLOUDY_PIXEL_PERCENTAGE s = Some x ∧ (x < cloud_cover)%Qc)
  ∧ (ordered_by_time (ee.ImageCollection "COPERNICUS/S2_SR_HARMONIZED") →
     ordered_by_time
       (get_sentinel2_collection geometry start_date end_date cloud_cover)).
Proof.
  split; [| split].
  - unfold get_sentinel2_collection, ee.filter_lt_cloudy, ee.filterDate,
      ee.filterBounds.
    etrans; [apply sublist_filter |]. etrans; apply sublist_filter.
  - intros s. apply get_sentinel2_collection_elem.
  - intros Hord. unfold get_sentinel2_collection, ee.filter_lt_cloudy,
      ee.filterDate, ee.filterBounds.
    by do 3 apply ordered_by_time_filter.
Qed.

Lemma query_keeps_archive_order_witness :
  @get_sentinel2_collection unordered_archive (cell 0 0) 0 1000 (Q2Qc 20)
    `sublist_of`
    @ee.ImageCollection unordered_archive "COPERNICUS/S2_SR_HARMONIZED"
  ∧ ordered_by_time
      (@get_sentinel2_collection ordered_archive (cell 0 0) 0 1000 (Q2Qc 20)).
Proof.
  split.
  - apply (@query_keeps_archive_order unordered_archive).
  - apply (@query_keeps_archive_order ordered_archive).
    simpl. repeat (apply ordered_by_time_cons; split;
      [ intros s' Hin; rewrite ?elem_of_cons in Hin;
        repeat (destruct Hin as [-> | Hin]; [simpl; lia |]);
        by apply elem_of_nil in Hin |]).
    intros i j s1 s2 _ Hi. discriminate Hi.
Defined.

(** ** Zero divisors are the backend's business *)

(** The source has no branch for a zero divisor: the pixel of a ratio
    whose divisor is zero is whatever the backend makes of it. *)
Lemma ratio_zero_divisor `{ee.Backend} (r : ee.Raster) (custom : CustomIndex)
    (a b : string) (A B : ee.Band) :
  custom_formula_of custom = "ratio" →
  custom_band_a custom = Some a → custom_band_b custom = Some b →
  ee.lookup_band a r = Some A → ee.lookup_band b r = Some B →
  ∃ ratio,
    _compute_custom_index (inr r) custom
    = Py.ret (Some (inr [(Py.get (custom_name custom) "CUSTOM", ratio)]))
    ∧ ∀ p x, A p = Some x → B p = Some 0%Qc → ratio p = ee.div_by_zero x.
Proof.
  intros Hkind Ha Hb HA HB. unfold _compute_custom_index.
  rewrite Hkind, Ha, Hb.
  destruct (decide _) as [Heq | _]; [discriminate Heq |].
  destruct (decide _) as [_ | Hne]; [| done].
  cbn [Py.bind Py.getitem Py.ret]. unfold ee.divide.
  rewrite (select_found _ _ _ HA), (select_found _ _ _ HB).
  rewrite image_op_single, rename_single.
  eexists. split; [reflexivity |].
  intros p x HAp HBp. unfold ee.band_op. rewrite HAp, HBp. simpl.
  unfold ee.pixel_div. by case_decide.
Qed.

(** With a backend that masks such pixels the statistics of a region of
    zero divisors are null; with the division of the reference
    documentation they are 0. *)
Example zero_divisor_masked :
  ∃ image,
    @calculate_indices_with test_backend [] (inr no_red_image) (Some [ratio_custom])
    = Py.ret image
    ∧ @calculate_statistics test_backend image region "RATIO"
      = Py.ret [ ("RATIO_max", None); ("RATIO_mean", None);
                 ("RATIO_min", None); ("RATIO_stdDev", None) ].
Proof. eexists. split; reflexivity. Qed.

Example zero_divisor_zero :
  ∃ image,
    @calculate_indices_with zero_backend [] (inr no_red_image) (Some [ratio_custom])
    = Py.ret image
    ∧ fractions (@calculate_statistics zero_backend image region "RATIO")
      = Py.ret [ ("RATIO_max", Some 0%Q); ("RATIO_mean", Some 0%Q);
                 ("RATIO_min", Some 0%Q); ("RATIO_stdDev", Some 0%Q) ].
Proof. eexists. split; reflexivity. Qed.

(** The uniform image: NDVI = (5000 - 1000) / (5000 + 1000) at every
    pixel, and so are its mean, minimum and maximum. *)
Example statistics_uniform_ndvi :
  ∃ image,
    @calculate_indices test_backend (inr sentinel2_image) None = Py.ret image
    ∧ fractions (@calculate_statistics test_backend image region "NDVI")
      = Py.ret [ ("NDVI_max", Some (2 # 3)%Q); ("NDVI_mean", Some (2 # 3)%Q);
                 ("NDVI_min", Some (2 # 3)%Q); ("NDVI_stdDev", Some 0%Q) ].
Proof. eexists. split; reflexivity. Qed.

(** On raw reflectance, which is not negative, the normalized difference
    is the quotient (a - b) / (a + b). *)
Lemma normalized_difference_px_nonneg `{ee.Backend} (a b : Qc) :
  (0 ≤ a)%Qc → (0 ≤ b)%Qc →
  ee.normalized_difference_px a b = quotient (a - b)%Qc (a + b)%Qc.
Proof.
  intros Ha Hb. unfold ee.normalized_difference_px.
  case_decide as Hneg; [| done].
  destruct Hneg as [Hneg | Hneg]; exfalso;
    eapply Qclt_not_le; eassumption.
Qed.

(** ** The cache key *)

(** C8. The cache key is a function of the seven fields site name,
    latitude, longitude, buffer radius, start date, end date and cloud
    ceiling: two configurations that agree on them get the same key,
    whatever their other fields. *)
Theorem cache_key_of_seven_fields `{PyRuntime} (c1 c2 : AnalysisConfig) :
  site_name c1 = site_name c2 →
  center_lat c1 = center_lat c2 →
  center_lon c1 = center_lon c2 →
  buffer_km c1 = buffer_km c2 →
  start_date c1 = start_date c2 →
  end_date c1 = end_date c2 →
  cloud_cover c1 = cloud_cover c2 →
  generate_params_hash c1 = generate_params_hash c2.
Proof.
  intros Hsite Hlat Hlon Hbuf Hstart Hend Hcloud.
  unfold generate_params_hash, hash_input.
  by rewrite Hsite, Hlat, Hlon, Hbuf, Hstart, Hend, Hcloud.
Qed.

Lemma cache_key_of_seven_fields_witness :
  generate_params_hash (alba_iulia ["NDVI"] true)
  = generate_params_hash (alba_iulia ["NDBI"; "BSI"] false).
Proof.
  apply (@cache_key_of_seven_fields test_runtime); reflexivity.
Defined.

Example hash_input_alba_iulia :
  hash_input (alba_iulia ["NDVI"] true)
  = "Alba Iulia Fortress (Romania)_46.069_23.571_2.000_2024-03-01_2026-03-01_20".
Proof. reflexivity. Qed.

(** * Further properties of the code *)

(** ** The collection query: what is returned, and when nothing is *)

Lemma filter_sublist_mono {A} (P Q : A → Prop)
    `{!∀ x, Decision (P x)} `{!∀ x, Decision (Q x)} (l : list A) :
  (∀ x, P x → Q x) → filter P l `sublist_of` filter Q l.
Proof.
  intros HPQ. induction l as [| x l IH]; [done |].
  rewrite !filter_cons. destruct (decide (P x)) as [HP | HP].
  - destruct (decide (Q x)) as [_ | HQ]; [by apply sublist_skip |].
    exfalso. by apply HQ, HPQ.
  - destruct (decide (Q x)); [by apply sublist_cons | done].
Qed.

Lemma filter_sublist_compat {A} (P : A → Prop) `{!∀ x, Decision (P x)}
    (l k : list A) :
  l `sublist_of` k → filter P l `sublist_of` filter P k.
Proof.
  induction 1 as [| x l k _ IH | x l k _ IH]; [done | |].
  - rewrite !filter_cons. destruct (decide (P x)); [by apply sublist_skip | done].
  - rewrite filter_cons. destruct (decide (P x)); [by apply sublist_cons | done].
Qed.

(** X1. A scene is returned by the query exactly when the archive lists
    it, its footprint intersects the geometry, it was acquired at or after
    [start_date] and strictly before [end_date], and it carries a cloud
    percentage strictly below the ceiling. *)
Theorem query_returns_exactly `{ee.Backend}
    (geometry : ee.Geometry) (start_date end_date : Z) (cloud_cover : Qc)
    (s : ee.Scene) :
  s ∈ get_sentinel2_collection geometry start_date end_date cloud_cover
  ↔ s ∈ ee.ImageCollection "COPERNICUS/S2_SR_HARMONIZED"
    ∧ ee.intersects (ee.footprint s) geometry = true
    ∧ (start_date ≤ ee.time_start s < end_date)%Z
    ∧ ∃ x, ee.CLOUDY_PIXEL_PERCENTAGE s = Some x ∧ (x < cloud_cover)%Qc.
Proof. apply get_sentinel2_collection_elem. Qed.

(** X3. Widening the window or raising the cloud ceiling never loses a
    scene, and keeps the scenes in their order. *)
Theorem query_monotone `{ee.Backend} (geometry : ee.Geometry)
    (start1 end1 start2 end2 : Z) (cloud1 cloud2 : Qc) :
  (start2 ≤ start1)%Z → (end1 ≤ end2)%Z → (cloud1 ≤ cloud2)%Qc →
  get_sentinel2_collection geometry start1 end1 cloud1
    `sublist_of` get_sentinel2_collection geometry start2 end2 cloud2.
Proof.
  intros Hstart Hend Hcloud.
  unfold get_sentinel2_collection, ee.filter_lt_cloudy, ee.filterDate.
  etrans.
  - apply filter_sublist_mono with
      (Q := λ s, ee.property_lt (ee.CLOUDY_PIXEL_PERCENTAGE s) cloud2 = true).
    intros s. unfold ee.property_lt.
    destruct (ee.CLOUDY_PIXEL_PERCENTAGE s) as [x |]; [| done].
    rewrite !bool_decide_eq_true. intros Hx.
    by apply Qclt_le_trans with cloud1.
  - apply filter_sublist_compat, filter_sublist_mono. intros s. lia.
Qed.

Lemma query_monotone_witness :
  @get_sentinel2_collection ordered_archive (cell 0 0) 100 250 (Q2Qc 20)
    `sublist_of`
  @get_sentinel2_collection ordered_archive (cell 0 0) 0 1000 (Q2Qc 80).
Proof.
  apply (@query_monotone ordered_archive); [lia | lia |].
  by apply (bool_decide_unpack _).
Defined.

(** X4. With the ceiling at 0, the lowest position of the slider, no
    scene is returned, since no cloud percentage is below 0. *)
Theorem query_zero_ceiling `{ee.Backend}
    (geometry : ee.Geometry) (start_date end_date : Z) :
  (∀ s x, s ∈ ee.ImageCollection "COPERNICUS/S2_SR_HARMONIZED" →
          ee.CLOUDY_PIXEL_PERCENTAGE s = Some x → (0 ≤ x)%Qc) →
  get_sentinel2_collection geometry start_date end_date 0%Qc = [].
Proof.
  intros Hpercent. apply elem_of_nil_inv. intros s Hs.
  apply get_sentinel2_collection_elem in Hs as (Hin & _ & _ & (x & Hx & Hlt)).
  by apply (Qcle_not_lt 0%Qc x (Hpercent s x Hin Hx)).
Qed.

Lemma query_zero_ceiling_witness :
  @get_sentinel2_collection ordered_archive (cell 0 0) 0 1000 0%Qc = [].
Proof.
  apply (@query_zero_ceiling ordered_archive). intros s x Hin Hx.
  simpl in Hin. rewrite !elem_of_cons in Hin.
  repeat (destruct Hin as [-> | Hin];
          [injection Hx as <-; by apply (bool_decide_unpack _) |]).
  by apply elem_of_nil in Hin.
Defined.

(** ** The compositor: what is staged, what fails and what is kept *)

Section Staging.
Context `{ee.Backend}.

Lemma lookup_band_is_Some name r :
  name ∈ ee.names r → ∃ b, ee.lookup_band name r = Some b.
Proof.
  intros Hin. destruct (ee.lookup_band name r) as [b |] eqn:Hb; [by exists b |].
  by apply lookup_band_None in Hb.
Qed.

Lemma lookup_band_in_names name r b :
  ee.lookup_band name r = Some b → name ∈ ee.names r.
Proof.
  intros Hb. destruct (decide (name ∈ ee.names r)) as [| Hnot]; [done |].
  apply lookup_band_None in Hnot. congruence.
Qed.

Lemma rename_failed e name : ee.rename (inl e) name = inl e.
Proof. reflexivity. Qed.

Lemma normalizedDifference_missing r a b :
  a ∉ ee.names r ∨ b ∉ ee.names r →
  ∃ e, ee.normalizedDifference (inr r) a b = inl e.
Proof.
  intros Hmissing. unfold ee.normalizedDifference. simpl.
  destruct (ee.lookup_band a r) as [ba |] eqn:Ha; [| by eexists].
  destruct (ee.lookup_band b r) as [bb |] eqn:Hb; [| by eexists].
  apply lookup_band_in_names in Ha, Hb. by destruct Hmissing.
Qed.

(** An entry whose bands are all there evaluates to one band, under the
    entry's name. *)
Lemma _compute_index_evaluates r0 name cfg :
  evaluable cfg → required_bands cfg ⊆ ee.names r0 →
  ∃ band, _compute_index (inr r0) name cfg = Py.ret (Some (inr [(name, band)])).
Proof.
  intros Hkind Hbands.
  assert (∀ b, b ∈ required_bands cfg → ∃ x, ee.lookup_band b r0 = Some x)
    as Hlookup by (intros b Hb; by apply lookup_band_is_Some, Hbands).
  clear Hbands. unfold required_bands in Hlookup. unfold _compute_index.
  destruct Hkind as [[Hkind Hlen] | Hkind].
  - rewrite Hkind in *.
    destruct (decide ("normalized_diff" = "normalized_diff")) as [_ | Hne];
      [| done].
    destruct (decide _) as [_ | Hne]; [| by destruct Hne].
    destruct (bands_of cfg) as [| b0 [| b1 rest]]; simpl in Hlen; [lia | lia |].
    destruct (Hlookup b0) as [x0 H0]; [simpl; apply list_elem_of_here |].
    destruct (Hlookup b1) as [x1 H1];
      [simpl; apply list_elem_of_further, list_elem_of_here |].
    unfold Py.index. cbn [lookup list_lookup Py.bind Py.ret].
    rewrite (normalizedDifference_found _ _ _ _ _ H0 H1), rename_single.
    by eexists.
  - repeat (apply elem_of_cons in Hkind as [Hkind | Hkind];
            [rewrite Hkind in *; simpl in Hlookup;
             destruct (decide (_ ∧ _)) as [[Heq _] | _]; [discriminate Heq |];
             repeat (destruct (decide (_ = _)) as [Heq | Hne];
                     [try discriminate Heq | try (by destruct Hne)]);
             repeat match goal with
               | |- context [ee.select (inr r0) ?b] =>
                   let x := fresh "x" in
                   let Hx := fresh "Hx" in
                   destruct (Hlookup b) as [x Hx];
                   [apply list_elem_of_In; simpl; tauto |];
                   rewrite (select_found _ _ _ Hx)
               | |- context [ee.normalizedDifference (inr r0) ?a ?b] =>
                   let x := fresh "x" in
                   let Hx := fresh "Hx" in
                   let y := fresh "y" in
                   let Hy := fresh "Hy" in
                   destruct (Hlookup a) as [x Hx];
                   [apply list_elem_of_In; simpl; tauto |];
                   destruct (Hlookup b) as [y Hy];
                   [apply list_elem_of_In; simpl; tauto |];
                   rewrite (normalizedDifference_found _ _ _ _ _ Hx Hy)
               end;
             by eexists |]).
    by apply elem_of_nil in Hkind.
Qed.

End Staging.

Section Failing.
Context `{ee.Backend}.

(** An entry one of whose bands is missing evaluates, without raising, to
    a band that fails. *)
Lemma _compute_index_missing_band r0 name cfg b :
  evaluable cfg → b ∈ required_bands cfg → b ∉ ee.names r0 →
  ∃ e, _compute_index (inr r0) name cfg = Py.ret (Some (inl e)).
Proof.
  intros Hkind Hb Hmissing. apply lookup_band_None in Hmissing.
  unfold required_bands in Hb. unfold _compute_index.
  destruct Hkind as [[Hkind Hlen] | Hkind].
  - rewrite Hkind in *.
    destruct (decide ("normalized_diff" = "normalized_diff")) as [_ | Hne];
      [| done].
    destruct (decide _) as [_ | Hne]; [| by destruct Hne].
    destruct (bands_of cfg) as [| b0 [| b1 rest]]; simpl in Hlen; [lia | lia |].
    unfold Py.index. cbn [lookup list_lookup Py.bind Py.ret].
    destruct (normalizedDifference_missing r0 b0 b1) as [e ->]; [| by exists e].
    simpl in Hb. rewrite !elem_of_cons, elem_of_nil in Hb.
    destruct Hb as [-> | [-> | []]]; [left | right]; by apply lookup_band_None.
  - repeat (apply elem_of_cons in Hkind as [Hkind | Hkind];
            [rewrite Hkind in *; simpl in Hb;
             destruct (decide (_ ∧ _)) as [[Heq _] | _]; [discriminate Heq |];
             repeat (destruct (decide (_ = _)) as [Heq | Hne];
                     [try discriminate Heq | try (by destruct Hne)]);
             rewrite !elem_of_cons, elem_of_nil in Hb;
             unfold ee.select, ee.normalizedDifference; simpl;
             repeat (destruct Hb as [-> | Hb]);
             try (by destruct Hb);
             rewrite ?Hmissing;
             repeat (destruct (ee.lookup_band _ r0); simpl; rewrite ?Hmissing);
             by eexists |]).
    by apply elem_of_nil in Hkind.
Qed.

Lemma for_each_stage_elem {A} (f : A → Py.M (option ee.Image)) xs x b acc acc' :
  x ∈ xs → f x = Py.ret (Some b) →
  for_each (λ a y, stage a (f y)) xs acc = Py.ret acc' →
  b ∈ acc'.
Proof.
  intros Hx Hfx. revert acc.
  induction xs as [| y xs IH]; intros acc; [by apply elem_of_nil in Hx |].
  simpl. apply elem_of_cons in Hx as [<- | Hx].
  - rewrite Hfx, stage_Some. simpl. intros Hrest.
    apply for_each_stage_prefix in Hrest as [more ->].
    rewrite !elem_of_app. left. right. apply list_elem_of_here.
  - destruct (stage_returns acc (f y)) as [acc1 ->]. simpl. by apply IH.
Qed.

Lemma staged_bands_catalog_elem catalog image extra name cfg b staged :
  (name, cfg) ∈ catalog → _compute_index image name cfg = Py.ret (Some b) →
  staged_bands catalog image extra = Py.ret staged →
  b ∈ staged.
Proof.
  intros Hin Hb. rewrite staged_bands_loops.
  destruct (for_each _ catalog []) as [e | acc0] eqn:Hcatalog; [done |]. simpl.
  intros Hextra. apply for_each_stage_prefix in Hextra as [more ->].
  apply elem_of_app. left.
  by apply (for_each_stage_elem
              (λ entry : string * IndexCfg, _compute_index image entry.1 entry.2)
              catalog (name, cfg) b [] acc0).
Qed.

Lemma staged_bands_skip_custom_raise catalog image pre custom post e :
  _compute_custom_index image custom = Py.raise e →
  staged_bands catalog image (Some (pre ++ custom :: post))
  = staged_bands catalog image (Some (pre ++ post)).
Proof.
  intros Hraise. rewrite !staged_bands_loops. simpl.
  destruct (for_each _ catalog []) as [e0 | acc0]; simpl; [done |].
  rewrite !for_each_app.
  destruct (for_each _ pre acc0) as [e1 | acc]; simpl; [done |].
  by rewrite Hraise, stage_raise.
Qed.

(** Every catalog entry evaluates: the staged bands are one per entry. *)
Lemma for_each_stage_singles r0 catalog acc :
  Forall (λ entry : string * IndexCfg,
            evaluable entry.2 ∧ required_bands entry.2 ⊆ ee.names r0) catalog →
  ∃ singles : ee.Raster,
    for_each (λ a entry, stage a (_compute_index (inr r0) entry.1 entry.2))
      catalog acc
    = Py.ret (acc ++ ((λ nb, inr [nb]) <$> singles))
    ∧ singles.*1 = catalog.*1.
Proof.
  intros Hall. revert acc.
  induction Hall as [| [name cfg] catalog [Hkind Hbands] _ IH]; intros acc.
  - exists []. simpl. by rewrite app_nil_r.
  - destruct (_compute_index_evaluates r0 name cfg Hkind Hbands) as [band Hband].
    destruct (IH (acc ++ [inr [(name, band)]])) as (singles & Hrest & Hnames).
    exists ((name, band) :: singles).
    split; [| rewrite !fmap_cons; cbn [fst]; by rewrite Hnames].
    change (for_each ?body ((name, cfg) :: catalog) acc)
      with (Py.bind (body acc (name, cfg)) (for_each body catalog)).
    cbn beta. change ((name, cfg).1) with name. change ((name, cfg).2) with cfg.
    rewrite Hband, stage_Some. cbn [Py.bind Py.ret].
    etrans; [exact Hrest |]. rewrite fmap_cons, <- app_assoc. reflexivity.
Qed.

End Failing.

(** X5. [calculate_indices] never raises, whatever the catalog, the image
    and the extra definitions: an exception of a single evaluation, such
    as the KeyError of a definition without its band keys, stays inside
    the loop. *)
Theorem calculate_indices_never_raises `{ee.Backend}
    (catalog : list (string * IndexCfg)) (image : ee.Image)
    (extra : option (list CustomIndex)) :
  ∃ result, calculate_indices_with catalog image extra = Py.ret result.
Proof. apply calculate_indices_with_returns. Qed.

(** X6. A custom definition of kind normalized_diff, ratio or difference
    that lacks its [band_a] or [band_b] key raises KeyError when it is
    evaluated; [calculate_indices] swallows it and returns what it returns
    without that definition. *)
Theorem missing_band_key_is_skipped `{ee.Backend}
    (image : ee.Image) (custom : CustomIndex) :
  custom_formula_of custom ∈ ["normalized_diff"; "ratio"; "difference"] →
  custom_band_a custom = None ∨ custom_band_b custom = None →
  (∃ key, _compute_custom_index image custom = Py.raise (Py.KeyError key))
  ∧ ∀ catalog pre post,
      calculate_indices_with catalog image (Some (pre ++ custom :: post))
      = calculate_indices_with catalog image (Some (pre ++ post)).
Proof.
  intros Hkind Hkey.
  assert (∃ key, _compute_custom_index image custom = Py.raise (Py.KeyError key))
    as [key Hraise].
  { unfold _compute_custom_index.
    repeat (apply elem_of_cons in Hkind as [-> | Hkind];
            [repeat (destruct (decide (_ = _)) as [Heq | Hne];
                     [try discriminate Heq | try (by destruct Hne)]);
             destruct (custom_band_a custom), (custom_band_b custom);
             simpl; try (by eexists); by destruct Hkey |]).
    by apply elem_of_nil in Hkind. }
  split; [by exists key |].
  intros catalog pre post. unfold calculate_indices_with.
  by rewrite (staged_bands_skip_custom_raise catalog image pre custom post _ Hraise).
Qed.

Lemma missing_band_key_is_skipped_witness :
  (∃ key,
     @_compute_custom_index test_backend (inr sentinel2_image)
       {| custom_name := Some "R"; custom_formula := Some "ratio";
          custom_band_a := Some "B8"; custom_band_b := None;
          custom_expression := None; custom_expression_bands := None |}
     = Py.raise (Py.KeyError key))
  ∧ ∀ catalog pre post,
      @calculate_indices_with test_backend catalog (inr sentinel2_image)
        (Some (pre ++ {| custom_name := Some "R"; custom_formula := Some "ratio";
                         custom_band_a := Some "B8"; custom_band_b := None;
                         custom_expression := None;
                         custom_expression_bands := None |} :: post))
      = @calculate_indices_with test_backend catalog (inr sentinel2_image)
          (Some (pre ++ post)).
Proof.
  apply (@missing_band_key_is_skipped test_backend).
  - apply list_elem_of_further, list_elem_of_here.
  - by right.
Defined.

(** X7. On an image that has every band the catalog reads, and none
    named like a catalog entry, [calculate_indices] returns an image that
    evaluates: the bands of the input, unchanged and in their order,
    followed by one band per catalog entry, under the entry's name and in
    the catalog's order. *)
Theorem complete_image_gets_every_index `{ee.Backend}
    (catalog : list (string * IndexCfg)) (r0 : ee.Raster) :
  Forall (λ entry : string * IndexCfg,
            evaluable entry.2 ∧ required_bands entry.2 ⊆ ee.names r0) catalog →
  NoDup (ee.names r0 ++ catalog.*1) →
  ∃ singles : ee.Raster,
    calculate_indices_with catalog (inr r0) None = Py.ret (inr (r0 ++ singles))
    ∧ singles.*1 = catalog.*1.
Proof.
  intros Hall Hunique.
  destruct (for_each_stage_singles r0 catalog [] Hall) as (singles & Hstaged & Hnames).
  exists singles. split; [| done].
  unfold calculate_indices_with, staged_bands.
  etrans; [apply (f_equal (λ m, Py.bind (Py.bind m _) _) Hstaged) |].
  cbn [Py.bind Py.ret app].
  destruct singles as [| nb src]; [by rewrite app_nil_r |].
  rewrite fmap_cons. unfold ee.addBands_list, ee.combine_.
  cbn [Py.bind Py.ret]. rewrite combine_singles.
  unfold ee.addBands. cbn [ee.on_raster].
  assert (NoDup (ee.names (nb :: src))) as Hsingles.
  { unfold ee.names. rewrite Hnames. by apply NoDup_app in Hunique as (_ & _ & ?). }
  rewrite (addBands_raster_disjoint [] (nb :: src)) by done.
  rewrite addBands_raster_disjoint; [done |].
  unfold ee.names in *. rewrite app_nil_l. by rewrite Hnames.
Qed.

Lemma complete_image_gets_every_index_witness :
  ∃ singles : ee.Raster,
    @calculate_indices_with test_backend INDICES_CONFIG (inr sentinel2_image) None
    = Py.ret (inr (sentinel2_image ++ singles))
    ∧ singles.*1 = INDICES_CONFIG.*1.
Proof.
  apply (@complete_image_gets_every_index test_backend).
  - unfold INDICES_CONFIG.
    repeat (apply Forall_cons; split;
            [split;
             [ first [ left; split; [reflexivity | simpl; lia]
                     | right; apply list_elem_of_In; simpl; tauto ]
             | intros b Hb; vm_compute in Hb;
               apply list_elem_of_In in Hb; apply list_elem_of_In;
               simpl in *; tauto ] |]).
    apply Forall_nil_2.
  - apply (bool_decide_unpack _). vm_compute. exact I.
Defined.

(** X8. Adding the indices does not touch the bands the image came with:
    the statistics of an input band are the same on the image returned by
    [calculate_indices] as on the input image. *)
Theorem statistics_of_input_bands_unchanged `{ee.Backend}
    (catalog : list (string * IndexCfg)) (r0 : ee.Raster)
    (extra : option (list CustomIndex)) (r : ee.Raster)
    (geometry : ee.Geometry) (index : string) :
  calculate_indices_with catalog (inr r0) extra = Py.ret (inr r) →
  index ∈ ee.names r0 →
  calculate_statistics (inr r) geometry index
  = calculate_statistics (inr r0) geometry index.
Proof.
  intros Hresult Hindex.
  destruct (lookup_band_is_Some index r0 Hindex) as [b Hb].
  assert (ee.lookup_band index r = Some b) as Hkept.
  { destruct (calculate_indices_with_evaluated _ _ _ _ Hresult)
      as (staged & _ & Hr).
    destruct staged as [| i rest]; [by subst r |].
    destruct Hr as (c & _ & ->). by apply addBands_raster_keeps. }
  unfold calculate_statistics.
  by rewrite (select_found _ _ _ Hb), (select_found _ _ _ Hkept).
Qed.

Lemma statistics_of_input_bands_unchanged_witness :
  ∃ r,
    @calculate_indices test_backend (inr sentinel2_image) None = Py.ret (inr r)
    ∧ @calculate_statistics test_backend (inr r) region "B8"
      = @calculate_statistics test_backend (inr sentinel2_image) region "B8".
Proof.
  eexists. split; [reflexivity |].
  apply (@statistics_of_input_bands_unchanged test_backend INDICES_CONFIG
           sentinel2_image None); [reflexivity |].
  apply list_elem_of_In. simpl. tauto.
Defined.

(** X9. One missing band is enough to lose everything: when the image
    lacks a band that some catalog entry reads, [calculate_indices] still
    returns, but the image it returns fails, and [calculate_statistics]
    raises on it for every index and every region. *)
Theorem missing_band_fails_whole_image `{ee.Backend}
    (catalog : list (string * IndexCfg)) (r0 : ee.Raster)
    (extra : option (list CustomIndex)) (name : string) (cfg : IndexCfg)
    (b : string) :
  (name, cfg) ∈ catalog → evaluable cfg →
  b ∈ required_bands cfg → b ∉ ee.names r0 →
  ∃ e,
    calculate_indices_with catalog (inr r0) extra = Py.ret (inl e)
    ∧ ∀ geometry index,
        calculate_statistics (inl e) geometry index
        = Py.raise (Py.EEException (ee.message e)).
Proof.
  intros Hentry Hkind Hb Hmissing.
  destruct (_compute_index_missing_band r0 name cfg b Hkind Hb Hmissing)
    as [e0 Hfails].
  destruct (staged_bands_returns catalog (inr r0) extra) as [staged Hstaged].
  pose proof (staged_bands_catalog_elem _ _ _ _ _ _ _ Hentry Hfails Hstaged)
    as Hin.
  destruct (failed_band_fails_image _ _ _ _ _ Hstaged Hin) as [e He].
  exists e. split; [exact He | reflexivity].
Qed.

Lemma missing_band_fails_whole_image_witness :
  ∃ e,
    @calculate_indices_with test_backend INDICES_CONFIG (inr truncated_image) None
    = Py.ret (inl e)
    ∧ ∀ geometry index,
        @calculate_statistics test_backend (inl e) geometry index
        = Py.raise (Py.EEException (ee.message e)).
Proof.
  apply (@missing_band_fails_whole_image test_backend INDICES_CONFIG
           truncated_image None "NDRE"
           (entry "Red Edge Vegetation Index" "normalized_diff" ["B8"; "B5"]
              "Vegetation") "B5").
  - apply list_elem_of_In. simpl. tauto.
  - left. split; [reflexivity | simpl; lia].
  - apply list_elem_of_In. simpl. tauto.
  - intros Hin. apply list_elem_of_In in Hin. vm_compute in Hin.
    repeat (destruct Hin as [Hin | Hin]; [discriminate Hin |]). exact Hin.
Defined.

(** ** The range of a normalized difference *)

Lemma Qc_double_nonneg (y : Qc) : (0 ≤ y → 0 ≤ y + y)%Qc.
Proof. intros Hy. by apply Qcplus_nonneg_nonneg. Qed.

Lemma Qc_sum_positive (x y : Qc) :
  (0 ≤ x)%Qc → (0 ≤ y)%Qc → (x + y)%Qc ≠ 0%Qc → (0 < x + y)%Qc.
Proof.
  intros Hx Hy Hne.
  destruct (Qcle_lt_or_eq 0%Qc (x + y)%Qc) as [Hlt | Heq]; [| done |].
  - by apply Qcplus_nonneg_nonneg.
  - by destruct Hne.
Qed.

Lemma normalized_ratio_bounds (x y : Qc) :
  (0 ≤ x)%Qc → (0 ≤ y)%Qc → (x + y)%Qc ≠ 0%Qc →
  (- 1 ≤ (x - y) / (x + y))%Qc ∧ ((x - y) / (x + y) ≤ 1)%Qc.
Proof.
  intros Hx Hy Hne. pose proof (Qc_sum_positive x y Hx Hy Hne) as Hpos.
  assert (((x - y) / (x + y)) * (x + y) = x - y)%Qc as Hcancel
    by (rewrite Qcmult_comm; by apply Qcmult_div_r).
  split; apply Qcmult_lt_0_le_reg_r with (x + y)%Qc; try done; rewrite Hcancel.
  - apply Qcle_minus_iff.
    replace (x - y + - (- 1 * (x + y)))%Qc with (x + x)%Qc by ring.
    by apply Qc_double_nonneg.
  - apply Qcle_minus_iff.
    replace (1 * (x + y) + - (x - y))%Qc with (y + y)%Qc by ring.
    by apply Qc_double_nonneg.
Qed.

(** X10. Where both bands of a normalized-difference index hold
    non-negative values that are not both 0, the index is defined and lies
    between -1 and 1. *)
Theorem normalized_diff_within_unit `{ee.Backend}
    (r : ee.Raster) (name : string) (cfg : IndexCfg) (a b : string)
    (rest : list string) (A B : ee.Band) (p : ee.Pixel) (x y : Qc) :
  formula_of cfg = "normalized_diff" → bands_of cfg = a :: b :: rest →
  ee.lookup_band a r = Some A → ee.lookup_band b r = Some B →
  A p = Some x → B p = Some y →
  (0 ≤ x)%Qc → (0 ≤ y)%Qc → (x + y)%Qc ≠ 0%Qc →
  ∃ nd v,
    _compute_index (inr r) name cfg = Py.ret (Some (inr [(name, nd)]))
    ∧ nd p = Some v ∧ (- 1 ≤ v)%Qc ∧ (v ≤ 1)%Qc.
Proof.
  intros Hkind Hbands HA HB Hx Hy Hx0 Hy0 Hne.
  unfold _compute_index. rewrite Hkind, Hbands.
  destruct (decide _) as [_ | Hno]; [| destruct Hno; split; [done | simpl; lia]].
  unfold Py.index. cbn [lookup list_lookup Py.bind Py.ret].
  rewrite (normalizedDifference_found _ _ _ _ _ HA HB), rename_single.
  eexists. exists ((x - y) / (x + y))%Qc. split; [reflexivity |].
  split; [| by apply normalized_ratio_bounds].
  rewrite Hx, Hy. simpl. unfold ee.normalized_difference_px.
  destruct (decide _) as [[Hneg | Hneg] | _].
  - by destruct (Qcle_not_lt _ _ Hx0).
  - by destruct (Qcle_not_lt _ _ Hy0).
  - by apply pixel_div_nonzero.
Qed.

Lemma normalized_diff_within_unit_witness :
  ∃ nd v,
    @_compute_index test_backend (inr sentinel2_image) "NDVI"
      (entry "Vegetation Index" "normalized_diff" ["B8"; "B4"] "Vegetation")
    = Py.ret (Some (inr [("NDVI", nd)]))
    ∧ nd (0, 0)%Z = Some v ∧ (- 1 ≤ v)%Qc ∧ (v ≤ 1)%Qc.
Proof.
  apply (@normalized_diff_within_unit test_backend sentinel2_image "NDVI" _
           "B8" "B4" [] (uniform 5000) (uniform 1000) (0, 0)%Z
           (Q2Qc 5000) (Q2Qc 1000)); try reflexivity.
  - by apply (bool_decide_unpack _).
  - by apply (bool_decide_unpack _).
  - by apply (bool_decide_unpack _).
Defined.

(** ** detect_changes *)

Section Changes.
Context `{ee.Backend}.

Lemma image_zip_single f n1 b1 n2 b2 :
  ee.image_zip f (inr [(n1, b1)]) (inr [(n2, b2)]) = inr [(n1, f b1 b2)].
Proof. reflexivity. Qed.

Lemma abs_single n b :
  ee.abs (inr [(n, b)]) = inr [(n, ee.band_map Qcabs.Qcabs b)].
Proof. reflexivity. Qed.

Lemma truth_nonzero (P : Prop) `{Decision P} : ee.truth P ≠ 0%Qc ↔ P.
Proof.
  unfold ee.truth. destruct (decide P) as [HP | HP].
  - split; [done |]. intros _ Heq. by apply Q2Qc_eq_iff in Heq.
  - split; [by intros Hne; destruct Hne | done].
Qed.

Lemma detect_changes_found r1 r2 index threshold A1 A2 :
  ee.lookup_band index r1 = Some A1 → ee.lookup_band index r2 = Some A2 →
  ∃ d,
    detect_changes (inr r1) (inr r2) (Some index) (Some threshold)
    = inr [(index, d)]
    ∧ ∀ p, d p = change_band threshold A1 A2 p.
Proof.
  intros H1 H2. unfold detect_changes. cbn [Py.get].
  unfold ee.subtract, ee.gt, ee.updateMask, ee.constant.
  rewrite (select_found _ _ _ H1), (select_found _ _ _ H2).
  rewrite image_op_single, abs_single, !image_zip_single.
  eexists. split; [reflexivity |].
  intros p. unfold ee.masked_by, ee.pixelwise, ee.band_map, ee.band_op,
    change_band.
  destruct (A2 p) as [v2 |], (A1 p) as [v1 |]; try reflexivity.
  cbn [mbind option_bind fmap option_fmap option_map ee.pixel_op].
  destruct (decide (threshold < Qcabs.Qcabs (v2 - v1))%Qc) as [Hgt | Hle].
  - destruct (decide (ee.truth _ = 0%Qc)) as [Hzero | _]; [| done].
    by destruct (proj2 (truth_nonzero _) Hgt).
  - destruct (decide (ee.truth _ = 0%Qc)) as [_ | Hone]; [done |].
    by apply truth_nonzero in Hone.
Qed.

End Changes.

(** X11. [detect_changes] returns one band, named after the index: at
    every pixel the difference second minus first where its absolute
    value is strictly above the threshold, and nothing (a masked pixel)
    where it is at or below the threshold or where either image is
    masked. *)
Theorem detect_changes_keeps_large_differences `{ee.Backend}
    (r1 r2 : ee.Raster) (index : string) (threshold : Qc) (A1 A2 : ee.Band) :
  ee.lookup_band index r1 = Some A1 → ee.lookup_band index r2 = Some A2 →
  ∃ d,
    detect_changes (inr r1) (inr r2) (Some index) (Some threshold)
    = inr [(index, d)]
    ∧ ∀ p, d p = change_band threshold A1 A2 p.
Proof. apply detect_changes_found. Qed.

Lemma detect_changes_keeps_large_differences_witness :
  ∃ d,
    @detect_changes test_backend (inr sentinel2_image) (inr no_red_image)
      (Some "B4") (Some (Q2Qc 0.2))
    = inr [("B4", d)]
    ∧ ∀ p, d p = change_band (Q2Qc 0.2) (uniform 1000) (uniform 0) p.
Proof.
  apply (@detect_changes_keeps_large_differences test_backend); reflexivity.
Defined.

(** X12. An image compared with itself shows no change: with a threshold
    that is not negative every pixel of the result is masked. *)
Theorem detect_changes_same_image `{ee.Backend}
    (r : ee.Raster) (index : string) (threshold : Qc) (A : ee.Band) :
  ee.lookup_band index r = Some A → (0 ≤ threshold)%Qc →
  ∃ d,
    detect_changes (inr r) (inr r) (Some index) (Some threshold)
    = inr [(index, d)]
    ∧ ∀ p, d p = None.
Proof.
  intros HA Hthreshold.
  destruct (detect_changes_found r r index threshold A A HA HA) as (d & -> & Hd).
  exists d. split; [done |]. intros p. rewrite Hd. unfold change_band.
  destruct (A p) as [v |]; [| done]. simpl.
  replace (v - v)%Qc with 0%Qc by ring.
  destruct (decide _) as [Hlt | _]; [| done].
  rewrite Qcabs.Qcabs_pos in Hlt by apply Qcle_refl.
  by destruct (Qcle_not_lt _ _ Hthreshold).
Qed.

Lemma detect_changes_same_image_witness :
  ∃ d,
    @detect_changes test_backend (inr sentinel2_image) (inr sentinel2_image)
      (Some "B8") (Some (Q2Qc 0.2))
    = inr [("B8", d)]
    ∧ ∀ p, d p = None.
Proof.
  apply (@detect_changes_same_image test_backend sentinel2_image "B8" _
           (uniform 5000)); [reflexivity |].
  by apply (bool_decide_unpack _).
Defined.

(** X13. Swapping the two images keeps the pixels that show a change and
    turns the sign of the change. *)
Theorem detect_changes_swap `{ee.Backend}
    (r1 r2 : ee.Raster) (index : string) (threshold : Qc) (A1 A2 : ee.Band) :
  ee.lookup_band index r1 = Some A1 → ee.lookup_band index r2 = Some A2 →
  ∃ forth back,
    detect_changes (inr r1) (inr r2) (Some index) (Some threshold)
    = inr [(index, forth)]
    ∧ detect_changes (inr r2) (inr r1) (Some index) (Some threshold)
      = inr [(index, back)]
    ∧ ∀ p, back p = Qcopp <$> forth p.
Proof.
  intros H1 H2.
  destruct (detect_changes_found r1 r2 index threshold A1 A2 H1 H2)
    as (forth & -> & Hforth).
  destruct (detect_changes_found r2 r1 index threshold A2 A1 H2 H1)
    as (back & -> & Hback).
  exists forth, back. split; [done |]. split; [done |].
  intros p. rewrite Hforth, Hback. unfold change_band.
  destruct (A1 p) as [v1 |], (A2 p) as [v2 |]; try reflexivity. simpl.
  rewrite (Qcabs.Qcabs_Qcminus v1 v2).
  destruct (decide _); [| done]. simpl. f_equal. ring.
Qed.

Lemma detect_changes_swap_witness :
  ∃ forth back,
    @detect_changes test_backend (inr sentinel2_image) (inr no_red_image)
      (Some "B4") (Some (Q2Qc 0.2))
    = inr [("B4", forth)]
    ∧ @detect_changes test_backend (inr no_red_image) (inr sentinel2_image)
        (Some "B4") (Some (Q2Qc 0.2))
      = inr [("B4", back)]
    ∧ ∀ p, back p = Qcopp <$> forth p.
Proof.
  apply (@detect_changes_swap test_backend sentinel2_image no_red_image "B4" _
           (uniform 1000) (uniform 0)); reflexivity.
Defined.

(** X14. [detect_changes] never raises; when the index is not a band of
    one of the two images, the image it returns fails with that band
    reported missing. *)
Theorem detect_changes_missing_index `{ee.Backend}
    (r1 r2 : ee.Raster) (index : string) (threshold : option Qc) :
  index ∉ ee.names r1 ∨ index ∉ ee.names r2 →
  detect_changes (inr r1) (inr r2) (Some index) threshold
  = inl (ee.NoBand index).
Proof.
  intros Hmissing. unfold detect_changes. cbn [Py.get].
  unfold ee.subtract, ee.gt, ee.updateMask, ee.select. simpl.
  destruct (ee.lookup_band index r2) as [A2 |] eqn:H2; [| done].
  destruct (ee.lookup_band index r1) as [A1 |] eqn:H1; [| done].
  apply lookup_band_in_names in H1, H2. by destruct Hmissing.
Qed.

Lemma detect_changes_missing_index_witness :
  @detect_changes test_backend (inr sentinel2_image) (inr no_red_image)
    (Some "B5") None
  = inl (ee.NoBand "B5").
Proof.
  apply (@detect_changes_missing_index test_backend). right.
  intros Hin. apply list_elem_of_In in Hin. simpl in Hin.
  repeat (destruct Hin as [Hin | Hin]; [discriminate Hin |]). exact Hin.
Defined.

(** ** The change map of the change tab *)

Lemma Qcabs_above (t d : Qc) :
  (t < Qcabs.Qcabs d)%Qc ↔ (d < - t)%Qc ∨ (t < d)%Qc.
Proof.
  rewrite !Qclt_nge, Qcabs.Qcabs_Qcle_condition. split.
  - intros Hnot. destruct (decide (d ≤ t)%Qc) as [Hle | Hgt]; [| by right].
    left. intros Hge. by apply Hnot.
  - intros [Hlow | Hhigh] [Hge Hle]; [by apply Hlow | by apply Hhigh].
Qed.

(** The masks and the colour bands of the change tab, per pixel. *)
Lemma change_masks_pixels `{ee.Backend}
    (r1 r2 : ee.Raster) (index : string) (threshold : Qc) (A1 A2 : ee.Band) :
  ee.lookup_band index r1 = Some A1 → ee.lookup_band index r2 = Some A2 →
  (0 ≤ threshold)%Qc →
  ∃ mask red blue,
    change_mask (change_masks (inr r1) (inr r2) index threshold)
    = inr [(index, mask)]
    ∧ r_band (change_masks (inr r1) (inr r2) index threshold)
      = inr [("constant", red)]
    ∧ b_band (change_masks (inr r1) (inr r2) index threshold)
      = inr [("constant", blue)]
    ∧ ∀ p v1 v2, A1 p = Some v1 → A2 p = Some v2 →
        mask p = Some (ee.truth (threshold < Qcabs.Qcabs (v2 - v1))%Qc)
        ∧ red p = Some (Q2Qc 255 * ee.truth (v2 - v1 < - threshold)%Qc)%Qc
        ∧ blue p = Some (Q2Qc 255 * ee.truth (threshold < v2 - v1)%Qc)%Qc
        ∧ (red p = Some 0%Qc ∨ blue p = Some 0%Qc).
Proof.
  intros H1 H2 Hthreshold. unfold change_masks. cbn [change_mask r_band b_band].
  unfold ee.subtract, ee.add, ee.multiply, ee.gt, ee.lt, ee.Or, number,
    ee.constant.
  rewrite (select_found _ _ _ H1), (select_found _ _ _ H2).
  rewrite !image_op_single, !image_zip_single, !image_op_single.
  do 3 eexists. do 3 (split; [reflexivity |]).
  intros p v1 v2 Hv1 Hv2.
  unfold ee.pixelwise, ee.band_op. rewrite Hv1, Hv2.
  cbn [mbind option_bind ee.pixel_op].
  set (d := (v2 - v1)%Qc).
  assert ((d < - threshold)%Qc → (threshold < d)%Qc → False) as Hexclusive.
  { intros Hlow Hhigh. apply (Qclt_not_le _ _ (Qclt_trans _ _ _ Hhigh Hlow)).
    apply Qcle_trans with 0%Qc; [| done].
    apply Qcle_minus_iff. by replace (0 + - - threshold)%Qc with threshold by ring. }
  pose proof (Qcabs_above threshold d) as Habs.
  unfold ee.truth.
  destruct (decide (d < - threshold)%Qc) as [Hlow | Hlow],
    (decide (threshold < d)%Qc) as [Hhigh | Hhigh];
    try (by destruct (Hexclusive Hlow Hhigh)).
  all: destruct (decide (threshold < Qcabs.Qcabs d)%Qc) as [Hd | Hd];
    try (destruct Hd; apply Habs; tauto);
    try (apply Habs in Hd; tauto).
  all: repeat split;
    try (destruct (decide _) as [Hor | Hor];
         [ try reflexivity; destruct Hor as [Hor | Hor]; by destruct Hor
         | try reflexivity; destruct Hor; first [ by left | by right ] ]);
    try (f_equal; ring);
    try (left; f_equal; ring); try (right; f_equal; ring).
Qed.

Lemma truth_one (P : Prop) `{Decision P} : ee.truth P = 1%Qc ↔ P.
Proof.
  unfold ee.truth. destruct (decide P) as [HP | HP]; [done |].
  split; [| done]. intros Heq. by apply Q2Qc_eq_iff in Heq.
Qed.

Lemma truth_zero (P : Prop) `{Decision P} : ee.truth P = 0%Qc ↔ ¬ P.
Proof.
  unfold ee.truth. destruct (decide P) as [HP | HP]; [| done].
  split; [| done]. intros Heq. by apply Q2Qc_eq_iff in Heq.
Qed.

(** X15. The change map and [detect_changes] agree: with a threshold
    that is not negative, at a pixel that both images hold, the mask of
    the change tab is 1 exactly where [detect_changes] keeps the
    difference, and 0 exactly where [detect_changes] masks the pixel: 1
    where the difference exceeds the threshold in absolute value.  The
    red band is 255 exactly where the index fell by more than the
    threshold, the blue band 255 exactly where it rose by more, and no
    pixel is both red and blue. *)
Theorem change_map_matches_detect_changes `{ee.Backend}
    (r1 r2 : ee.Raster) (index : string) (threshold : Qc) (A1 A2 : ee.Band) :
  ee.lookup_band index r1 = Some A1 → ee.lookup_band index r2 = Some A2 →
  (0 ≤ threshold)%Qc →
  ∃ mask red blue changes,
    change_mask (change_masks (inr r1) (inr r2) index threshold)
    = inr [(index, mask)]
    ∧ r_band (change_masks (inr r1) (inr r2) index threshold)
      = inr [("constant", red)]
    ∧ b_band (change_masks (inr r1) (inr r2) index threshold)
      = inr [("constant", blue)]
    ∧ detect_changes (inr r1) (inr r2) (Some index) (Some threshold)
      = inr [(index, changes)]
    ∧ ∀ p v1 v2, A1 p = Some v1 → A2 p = Some v2 →
        mask p = Some (ee.truth (threshold < Qcabs.Qcabs (v2 - v1))%Qc)
        ∧ (mask p = Some 1%Qc ↔ changes p = Some (v2 - v1)%Qc)
        ∧ (mask p = Some 0%Qc ↔ changes p = None)
        ∧ red p = Some (Q2Qc 255 * ee.truth (v2 - v1 < - threshold)%Qc)%Qc
        ∧ blue p = Some (Q2Qc 255 * ee.truth (threshold < v2 - v1)%Qc)%Qc
        ∧ (red p = Some 0%Qc ∨ blue p = Some 0%Qc).
Proof.
  intros H1 H2 Hthreshold.
  destruct (change_masks_pixels r1 r2 index threshold A1 A2 H1 H2 Hthreshold)
    as (mask & red & blue & Hmask & Hred & Hblue & Hpixels).
  destruct (detect_changes_found r1 r2 index threshold A1 A2 H1 H2)
    as (changes & Hchanges & Hchange).
  exists mask, red, blue, changes. do 4 (split; [done |]).
  intros p v1 v2 Hv1 Hv2.
  destruct (Hpixels p v1 v2 Hv1 Hv2) as (Hm & Hr & Hb & Hexclusive).
  split; [done |]. split; [| split; [| done]].
  - rewrite Hm, Hchange. unfold change_band. rewrite Hv1, Hv2. simpl.
    destruct (decide _) as [Hgt | Hle].
    + split; [done |]. intros _. f_equal. by apply truth_one.
    + split; [| done]. intros [= Hone]. by apply truth_one in Hone.
  - rewrite Hm, Hchange. unfold change_band. rewrite Hv1, Hv2. simpl.
    destruct (decide _) as [Hgt | Hle].
    + split; [| done]. intros [= Hzero]. by apply truth_zero in Hzero.
    + split; [done |]. intros _. f_equal. by apply truth_zero.
Qed.

Lemma change_map_matches_detect_changes_witness :
  ∃ mask red blue changes,
    change_mask (@change_masks test_backend (inr sentinel2_image)
                   (inr no_red_image) "B4" (Q2Qc 0.2))
    = inr [("B4", mask)]
    ∧ r_band (@change_masks test_backend (inr sentinel2_image)
                (inr no_red_image) "B4" (Q2Qc 0.2))
      = inr [("constant", red)]
    ∧ b_band (@change_masks test_backend (inr sentinel2_image)
                (inr no_red_image) "B4" (Q2Qc 0.2))
      = inr [("constant", blue)]
    ∧ @detect_changes test_backend (inr sentinel2_image) (inr no_red_image)
        (Some "B4") (Some (Q2Qc 0.2))
      = inr [("B4", changes)]
    ∧ ∀ p v1 v2, uniform 1000 p = Some v1 → uniform 0 p = Some v2 →
        mask p = Some (ee.truth (Q2Qc 0.2 < Qcabs.Qcabs (v2 - v1))%Qc)
        ∧ (mask p = Some 1%Qc ↔ changes p = Some (v2 - v1)%Qc)
        ∧ (mask p = Some 0%Qc ↔ changes p = None)
        ∧ red p = Some (Q2Qc 255 * ee.truth (v2 - v1 < - Q2Qc 0.2)%Qc)%Qc
        ∧ blue p = Some (Q2Qc 255 * ee.truth (Q2Qc 0.2 < v2 - v1)%Qc)%Qc
        ∧ (red p = Some 0%Qc ∨ blue p = Some 0%Qc).
Proof.
  apply (@change_map_matches_detect_changes test_backend sentinel2_image
           no_red_image "B4" (Q2Qc 0.2) (uniform 1000) (uniform 0));
    [reflexivity | reflexivity |].
  by apply (bool_decide_unpack _).
Defined.

(** ** The sidebar's list of custom indices *)

Lemma without_name_filter name (custom_indices : list CustomIndex) :
  Forall (λ c, is_Some (custom_name c)) custom_indices →
  without_name name custom_indices
  = Py.ret (filter (λ c, custom_name c ≠ Some name) custom_indices).
Proof.
  induction 1 as [| c rest [n Hn] _ IH]; [done |].
  simpl. unfold name_of. rewrite Hn, IH. simpl. rewrite filter_cons, Hn.
  destruct (decide (n ≠ name)) as [Hne | Heq].
  - destruct (decide (Some n ≠ Some name)) as [_ | Hno]; [done |].
    destruct Hno. congruence.
  - destruct (decide (Some n ≠ Some name)) as [Hne | _]; [| done].
    destruct Heq. congruence.
Qed.

Lemma custom_names_filter_not_elem name (custom_indices : list CustomIndex) :
  name ∉ custom_names (filter (λ c, custom_name c ≠ Some name) custom_indices).
Proof.
  unfold custom_names. intros Hin. apply list_elem_of_omap in Hin as (c & Hc & Hn).
  by apply list_elem_of_filter in Hc as [Hne _].
Qed.

Lemma custom_names_filter_NoDup (P : CustomIndex → Prop)
    `{!∀ c, Decision (P c)} (custom_indices : list CustomIndex) :
  NoDup (custom_names custom_indices) →
  NoDup (custom_names (filter P custom_indices)).
Proof.
  unfold custom_names. induction custom_indices as [| c rest IH]; [done |].
  rewrite filter_cons. simpl.
  destruct (custom_name c) as [n |] eqn:Hn.
  - intros [Hfresh Hrest]%NoDup_cons. destruct (decide (P c)); [| by apply IH].
    simpl. rewrite Hn. apply NoDup_cons. split; [| by apply IH].
    intros Hin. apply Hfresh.
    apply list_elem_of_omap in Hin as (c' & Hc' & Hn').
    apply list_elem_of_filter in Hc' as [_ Hc'].
    apply list_elem_of_omap. by exists c'.
  - intros Hrest. destruct (decide (P c)); [| by apply IH].
    simpl. rewrite Hn. by apply IH.
Qed.

Lemma filter_other_names name (custom_indices : list CustomIndex) :
  name ∉ custom_names custom_indices →
  filter (λ c, custom_name c ≠ Some name) custom_indices = custom_indices.
Proof.
  unfold custom_names. induction custom_indices as [| c rest IH]; [done |].
  intros Hfresh. rewrite filter_cons.
  destruct (decide (custom_name c ≠ Some name)) as [_ | Heq].
  - f_equal. apply IH. intros Hin. apply Hfresh. simpl.
    destruct (custom_name c); [by apply list_elem_of_further | done].
  - destruct Hfresh. simpl.
    destruct (custom_name c) as [n |] eqn:Hn.
    + destruct (decide (n = name)) as [-> | Hne]; [apply list_elem_of_here |].
      destruct Heq. congruence.
    + by destruct Heq.
Qed.

(** X16. Adding a custom index replaces the ones that had its name: the
    other definitions stay, in their order, none of them under the new
    name, and the new one comes last; if the names of the list were
    pairwise distinct they still are. *)
Theorem add_custom_index_replaces
    (name : string) (def : CustomIndex)
    (custom_indices : option (list CustomIndex)) (indices : list string) :
  name ≠ "" → custom_name def = Some name →
  Forall (λ c, is_Some (custom_name c)) (Py.get custom_indices []) →
  ∃ kept,
    add_custom_index name def custom_indices indices
    = Py.ret (Some (kept ++ [def]), indices ++ [name])
    ∧ kept = filter (λ c, custom_name c ≠ Some name) (Py.get custom_indices [])
    ∧ (name ∉ custom_names kept)
    ∧ (NoDup (custom_names (Py.get custom_indices [])) →
       NoDup (custom_names (kept ++ [def]))).
Proof.
  intros Hname Hdef Hnamed. eexists. split; [| split; [reflexivity | split]].
  - unfold add_custom_index. destruct (decide (name ≠ "")); [| done].
    by rewrite (without_name_filter name _ Hnamed).
  - apply custom_names_filter_not_elem.
  - intros Hunique. unfold custom_names. rewrite omap_app. simpl. rewrite Hdef.
    apply NoDup_app. split; [by apply custom_names_filter_NoDup |].
    split; [| apply NoDup_singleton].
    intros n Hn Heq. apply list_elem_of_singleton in Heq as ->.
    by apply (custom_names_filter_not_elem name (Py.get custom_indices [])).
Qed.

Lemma add_custom_index_replaces_witness :
  ∃ kept,
    add_custom_index "NDVI" ndvi_difference
      (Some [ndvi_difference; ratio_custom; ndvi_difference]) ["NDBI"]
    = Py.ret (Some (kept ++ [ndvi_difference]), ["NDBI"] ++ ["NDVI"])
    ∧ kept = filter (λ c, custom_name c ≠ Some "NDVI")
               (Py.get (Some [ndvi_difference; ratio_custom; ndvi_difference]) [])
    ∧ ("NDVI" ∉ custom_names kept)
    ∧ (NoDup (custom_names
                (Py.get (Some [ndvi_difference; ratio_custom; ndvi_difference])
                   [])) →
       NoDup (custom_names (kept ++ [ndvi_difference]))).
Proof.
  apply add_custom_index_replaces.
  - discriminate.
  - reflexivity.
  - repeat apply Forall_cons_2; try apply Forall_nil_2; by eexists.
Defined.

(** X17. Removing the custom index that was just added under a new name
    gives the list back as it was. *)
Theorem add_then_remove_custom_index
    (name : string) (def : CustomIndex)
    (custom_indices : list CustomIndex) (indices : list string) :
  name ≠ "" → custom_name def = Some name →
  Forall (λ c, is_Some (custom_name c)) custom_indices →
  name ∉ custom_names custom_indices →
  ∃ added,
    add_custom_index name def (Some custom_indices) indices
    = Py.ret (Some added, indices ++ [name])
    ∧ remove_custom_index def added = Py.ret custom_indices.
Proof.
  intros Hname Hdef Hnamed Hfresh.
  exists (custom_indices ++ [def]). split.
  - unfold add_custom_index. destruct (decide (name ≠ "")); [| done].
    simpl. rewrite (without_name_filter name _ Hnamed). simpl.
    by rewrite (filter_other_names name _ Hfresh).
  - unfold remove_custom_index, name_of. rewrite Hdef.
    destruct (custom_indices ++ [def]) as [| c rest] eqn:Hlist;
      [by destruct custom_indices |].
    rewrite <- Hlist. simpl Py.bind.
    rewrite without_name_filter
      by (apply Forall_app; split; [done | by apply Forall_singleton; eexists]).
    rewrite filter_app, (filter_other_names name _ Hfresh).
    rewrite filter_cons, filter_nil.
    destruct (decide (custom_name def ≠ Some name)) as [Hne | _];
      [by destruct Hne |].
    by rewrite app_nil_r.
Qed.

Lemma add_then_remove_custom_index_witness :
  ∃ added,
    add_custom_index "NDVI" ndvi_difference (Some [ratio_custom]) ["NDBI"]
    = Py.ret (Some added, ["NDBI"] ++ ["NDVI"])
    ∧ remove_custom_index ndvi_difference added = Py.ret [ratio_custom].
Proof.
  apply add_then_remove_custom_index.
  - discriminate.
  - reflexivity.
  - apply Forall_singleton. by eexists.
  - apply (bool_decide_unpack _). vm_compute. exact I.
Defined.

Lemma append_missing_spec (custom_indices : list CustomIndex) :
  Forall (λ c, is_Some (custom_name c)) custom_indices →
  ∀ all,
    ∃ result,
      append_missing all custom_indices = Py.ret result
      ∧ (∀ n, n ∈ result ↔ n ∈ all ∨ n ∈ custom_names custom_indices)
      ∧ (NoDup all → NoDup result)
      ∧ all `prefix_of` result.
Proof.
  induction 1 as [| c rest [n Hn] _ IH]; intros all.
  - exists all. split; [done |]. split; [| done].
    intros n. unfold custom_names. simpl. rewrite elem_of_nil. tauto.
  - simpl. unfold name_of. rewrite Hn. simpl.
    destruct (IH (if decide (n ∈ all) then all else all ++ [n]))
      as (result & -> & Hmem & Hunique & Hprefix).
    exists result. split; [done |]. unfold custom_names in *.
    destruct (decide (n ∈ all)) as [Hin | Hnew].
    + split; [| done]. intros m. rewrite Hmem, elem_of_cons.
      split; [tauto |]. intros [Hm | [-> | Hm]]; tauto.
    + split; [| split].
      * intros m. rewrite Hmem, elem_of_app, list_elem_of_singleton, elem_of_cons.
        tauto.
      * intros Hall. apply Hunique. apply NoDup_app.
        split; [done |]. split; [| apply NoDup_singleton].
        intros m Hm Heq. apply list_elem_of_singleton in Heq as ->. done.
      * etrans; [| exact Hprefix]. by apply prefix_app_r.
Qed.

(** X18. The indices handed to the analysis are the selected ones, in
    their order, followed by the custom names that are not among them: a
    name is in the list exactly when it is selected or is the name of a
    custom index, and no name is added twice. *)
Theorem all_indices_adds_missing_names
    (indices : list string) (custom_indices : option (list CustomIndex)) :
  Forall (λ c, is_Some (custom_name c)) (Py.get custom_indices []) →
  ∃ result,
    all_indices indices custom_indices = Py.ret result
    ∧ (∀ n, n ∈ result
            ↔ n ∈ indices ∨ n ∈ custom_names (Py.get custom_indices []))
    ∧ (NoDup indices → NoDup result)
    ∧ indices `prefix_of` result.
Proof.
  intros Hnamed. unfold all_indices. by apply append_missing_spec.
Qed.

Lemma all_indices_adds_missing_names_witness :
  ∃ result,
    all_indices ["NDVI"; "NDBI"] (Some [ratio_custom; ndvi_difference])
    = Py.ret result
    ∧ (∀ n, n ∈ result
            ↔ n ∈ ["NDVI"; "NDBI"]
              ∨ n ∈ custom_names (Py.get (Some [ratio_custom; ndvi_difference]) []))
    ∧ (NoDup ["NDVI"; "NDBI"] → NoDup result)
    ∧ ["NDVI"; "NDBI"] `prefix_of` result.
Proof.
  apply all_indices_adds_missing_names.
  repeat apply Forall_cons_2; try apply Forall_nil_2; by eexists.
Defined.

(** ** The cache key: what the hashed string determines *)

Lemma chars_app s t : chars (s +:+ t) = chars s ++ chars t.
Proof.
  induction s as [| c s IH]; [done |].
  rewrite append_cons. unfold chars in *. simpl. by rewrite IH.
Qed.

Lemma split_at_last (sep : ascii) (a1 a2 t1 t2 : string) :
  sep ∉ chars t1 → sep ∉ chars t2 →
  a1 +:+ String sep t1 = a2 +:+ String sep t2 →
  a1 = a2 ∧ t1 = t2.
Proof.
  intros H1 H2. revert a2.
  induction a1 as [| c a1 IH]; intros [| c2 a2];
    rewrite ?append_cons, ?append_nil_l; intros Heq.
  - by injection Heq as ->.
  - injection Heq as <- ->. destruct H1. rewrite chars_app.
    apply elem_of_app. right. apply list_elem_of_here.
  - injection Heq as -> <-. destruct H2. rewrite chars_app.
    apply elem_of_app. right. apply list_elem_of_here.
  - injection Heq as -> Hrest. by destruct (IH _ Hrest) as [-> ->].
Qed.

Lemma split_last_field (sep : ascii) (a1 a2 t1 t2 : string) :
  sep ∉ chars t1 → sep ∉ chars t2 →
  (a1 +:+ String sep "") +:+ t1 = (a2 +:+ String sep "") +:+ t2 →
  a1 = a2 ∧ t1 = t2.
Proof.
  intros H1 H2. rewrite <- !append_assoc, !append_cons, !append_nil_l.
  by apply split_at_last.
Qed.

Lemma written_in_app extra s t :
  written_in extra s → written_in extra t → written_in extra (s +:+ t).
Proof. unfold written_in. rewrite chars_app. apply Forall_app_2. Qed.

Lemma written_in_not_elem extra s c :
  written_in extra s → c ∉ digit_chars ++ extra → c ∉ chars s.
Proof.
  unfold written_in. rewrite Forall_forall. intros Hall Hc Hin.
  by apply Hc, Hall.
Qed.

Lemma pretty_N_char_digit x : pretty_N_char x ∈ digit_chars.
Proof.
  unfold pretty_N_char, digit_chars. apply list_elem_of_In.
  repeat case_match; simpl; tauto.
Qed.

Lemma pretty_N_go_written extra x s :
  written_in extra s → written_in extra (pretty_N_go x s).
Proof.
  revert s. induction (N.lt_wf_0 x) as [x _ IH]; intros s Hs.
  assert (x = 0 ∨ 0 < x)%N as [-> | Hpos] by lia; [by rewrite pretty_N_go_0 |].
  rewrite pretty_N_go_step by done. apply IH; [by apply N.div_lt |].
  apply Forall_cons. split; [| done].
  apply elem_of_app. left. apply pretty_N_char_digit.
Qed.

Lemma pretty_N_written extra (x : N) : written_in extra (pretty x).
Proof.
  unfold pretty, pretty_N. case_decide.
  - apply Forall_cons. split; [| apply Forall_nil_2].
    apply elem_of_app. left. apply list_elem_of_here.
  - apply pretty_N_go_written. apply Forall_nil_2.
Qed.

Lemma pretty_Z_written extra (z : Z) :
  "-"%char ∈ extra → written_in extra (pretty z).
Proof.
  intros Hdash. destruct z as [| p | p]; unfold pretty, pretty_Z.
  - apply (pretty_N_written _ 0%N).
  - apply (pretty_N_written _ (N.pos p)).
  - apply (written_in_app _ "-").
    + apply Forall_cons. split; [| apply Forall_nil_2].
      apply elem_of_app. by right.
    + apply (pretty_N_written _ (N.pos p)).
Qed.

Lemma zeros_written extra k :
  written_in extra (String.concat "" (replicate k "0")).
Proof.
  induction k as [| k IH]; [apply Forall_nil_2 |].
  simpl. destruct (replicate k "0") as [| z zs] eqn:Hz.
  - apply Forall_cons. split; [| apply Forall_nil_2].
    apply elem_of_app. left. apply list_elem_of_here.
  - apply (written_in_app _ "0"); [| done].
    apply Forall_cons. split; [| apply Forall_nil_2].
    apply elem_of_app. left. apply list_elem_of_here.
Qed.

Lemma zero_padded_written extra width n : written_in extra (zero_padded width n).
Proof.
  unfold zero_padded. apply written_in_app; [apply zeros_written |].
  apply (pretty_N_written _ (N.of_nat n)).
Qed.

Lemma digits_value_app acc s t :
  digits_value acc (s +:+ t) = digits_value (digits_value acc s) t.
Proof. revert acc. induction s as [| c s IH]; intros acc; [done |]. simpl. apply IH. Qed.

Lemma digits_value_char x : (x < 10)%N → (N_of_ascii (pretty_N_char x) - 48 = x)%N.
Proof.
  intros Hx.
  assert (x = 0 ∨ x = 1 ∨ x = 2 ∨ x = 3 ∨ x = 4 ∨ x = 5 ∨ x = 6 ∨ x = 7
          ∨ x = 8 ∨ x = 9)%N as Hcases by lia.
  repeat (destruct Hcases as [-> | Hcases]; [reflexivity |]). by subst x.
Qed.

Lemma pretty_N_go_app x s : pretty_N_go x s = pretty_N_go x "" +:+ s.
Proof.
  revert s. induction (N.lt_wf_0 x) as [x _ IH]; intros s.
  assert (x = 0 ∨ 0 < x)%N as [-> | Hpos] by lia; [by rewrite !pretty_N_go_0 |].
  assert (x `div` 10 < x)%N as Hless by (by apply N.div_lt).
  rewrite (pretty_N_go_step x s), (pretty_N_go_step x "") by done.
  rewrite (IH _ Hless (String _ s)), (IH _ Hless (String _ "")).
  by rewrite <- append_assoc.
Qed.

Lemma digits_value_pretty_N_go x : digits_value 0 (pretty_N_go x "") = x.
Proof.
  induction (N.lt_wf_0 x) as [x _ IH].
  assert (x = 0 ∨ 0 < x)%N as [-> | Hpos] by lia; [done |].
  rewrite pretty_N_go_step, pretty_N_go_app, digits_value_app by done.
  rewrite IH by (by apply N.div_lt). simpl.
  rewrite digits_value_char by (by apply N.mod_lt).
  rewrite (N.div_mod x 10) at 3 by done. lia.
Qed.

Lemma digits_value_pretty (x : N) : digits_value 0 (pretty x) = x.
Proof.
  unfold pretty, pretty_N. case_decide; [by subst x |].
  apply digits_value_pretty_N_go.
Qed.

Lemma digits_value_zeros k : digits_value 0 (String.concat "" (replicate k "0")) = 0%N.
Proof.
  induction k as [| k IH]; [done |].
  simpl. destruct (replicate k "0") as [| z zs] eqn:Hz; [done |].
  by rewrite digits_value_app.
Qed.

Lemma digits_value_zero_padded width n :
  digits_value 0 (zero_padded width n) = N.of_nat n.
Proof.
  unfold zero_padded. rewrite digits_value_app, digits_value_zeros.
  apply digits_value_pretty.
Qed.

Lemma zero_padded_inj width n1 n2 :
  zero_padded width n1 = zero_padded width n2 → n1 = n2.
Proof.
  intros Heq. apply Nat2N.inj.
  by rewrite <- (digits_value_zero_padded width n1), Heq, digits_value_zero_padded.
Qed.

Lemma str_date_written (d : date) : written_in ["-"%char] (str_date d).
Proof.
  unfold str_date.
  repeat first [ apply zero_padded_written
               | apply written_in_app ];
    (apply Forall_cons; split; [| apply Forall_nil_2]);
    apply elem_of_app; right; apply list_elem_of_here.
Qed.

Lemma dash_not_digit : "-"%char ∉ digit_chars ++ [].
Proof. intros Hin. apply list_elem_of_In in Hin. simpl in Hin. intuition discriminate. Qed.

Lemma underscore_not_written : "_"%char ∉ digit_chars ++ ["-"%char].
Proof. intros Hin. apply list_elem_of_In in Hin. simpl in Hin. intuition discriminate. Qed.

(** The ISO form of a date determines the date. *)
Lemma str_date_inj (d1 d2 : date) : str_date d1 = str_date d2 → d1 = d2.
Proof.
  unfold str_date. rewrite !append_assoc. intros Heq.
  apply split_last_field in Heq as [Heq Hday];
    [| apply (written_in_not_elem []); [apply zero_padded_written | apply dash_not_digit]..].
  apply split_last_field in Heq as [Hyear Hmonth];
    [| apply (written_in_not_elem []); [apply zero_padded_written | apply dash_not_digit]..].
  apply zero_padded_inj in Hyear, Hmonth, Hday.
  destruct d1, d2. simpl in *. congruence.
Qed.

(** X19. The string that is hashed determines the seven fields it is
    made of: when the rendering of a float is injective and writes no
    underscore, two configurations with the same string have the same
    site name, latitude, longitude, buffer radius, start date, end date
    and cloud ceiling, although the site name may itself hold
    underscores.  Two configurations that differ in one of the seven
    fields can share a key only through SHA-256. *)
Theorem hash_input_determines_fields `{PyRuntime} (c1 c2 : AnalysisConfig) :
  (∀ x y, str_float x = str_float y → x = y) →
  (∀ x, "_"%char ∉ chars (str_float x)) →
  hash_input c1 = hash_input c2 →
  site_name c1 = site_name c2
  ∧ center_lat c1 = center_lat c2
  ∧ center_lon c1 = center_lon c2
  ∧ buffer_km c1 = buffer_km c2
  ∧ start_date c1 = start_date c2
  ∧ end_date c1 = end_date c2
  ∧ cloud_cover c1 = cloud_cover c2.
Proof.
  intros Hinj Hfloat. unfold hash_input. rewrite !append_assoc. intros Heq.
  apply split_last_field in Heq as [Heq Hcloud];
    [| apply (written_in_not_elem ["-"%char]);
       [apply pretty_Z_written, list_elem_of_here | apply underscore_not_written]..].
  apply split_last_field in Heq as [Heq Hend];
    [| apply (written_in_not_elem ["-"%char]);
       [apply str_date_written | apply underscore_not_written]..].
  apply split_last_field in Heq as [Heq Hstart];
    [| apply (written_in_not_elem ["-"%char]);
       [apply str_date_written | apply underscore_not_written]..].
  apply split_last_field in Heq as [Heq Hbuffer]; [| apply Hfloat..].
  apply split_last_field in Heq as [Heq Hlon]; [| apply Hfloat..].
  apply split_last_field in Heq as [Hsite Hlat]; [| apply Hfloat..].
  repeat split; first [ done | by apply Hinj | by apply str_date_inj
                      | by apply (inj pretty) ].
Qed.

Lemma test_runtime_str_float_clean (z : Z) :
  "_"%char ∉ chars (@str_float test_runtime z).
Proof.
  apply (written_in_not_elem ["-"%char; "."%char]).
  - apply written_in_app; [apply pretty_Z_written, list_elem_of_here |].
    apply (written_in_app _ "."); [| apply zero_padded_written].
    apply Forall_cons. split; [| apply Forall_nil_2].
    apply elem_of_app. right. apply list_elem_of_further, list_elem_of_here.
  - intros Hin. apply list_elem_of_In in Hin. simpl in Hin. intuition discriminate.
Qed.

Lemma test_runtime_str_float_inj (x y : Z) :
  @str_float test_runtime x = @str_float test_runtime y → x = y.
Proof.
  unfold str_float, test_runtime. rewrite !append_assoc. intros Heq.
  apply split_last_field in Heq as [Hwhole Hpart];
    [| apply (written_in_not_elem []); [apply zero_padded_written |];
       intros Hin; apply list_elem_of_In in Hin; simpl in Hin;
       intuition discriminate..].
  apply (inj pretty) in Hwhole. apply zero_padded_inj in Hpart.
  apply Z2Nat.inj in Hpart; [| apply Z.mod_pos_bound; lia..].
  rewrite (Z.div_mod x 1000), (Z.div_mod y 1000) by lia. congruence.
Qed.

Lemma hash_input_determines_fields_witness :
  site_name (alba_iulia ["NDVI"] true) = site_name (alba_iulia ["NDBI"; "BSI"] false)
  ∧ center_lat (alba_iulia ["NDVI"] true) = center_lat (alba_iulia ["NDBI"; "BSI"] false)
  ∧ center_lon (alba_iulia ["NDVI"] true) = center_lon (alba_iulia ["NDBI"; "BSI"] false)
  ∧ buffer_km (alba_iulia ["NDVI"] true) = buffer_km (alba_iulia ["NDBI"; "BSI"] false)
  ∧ start_date (alba_iulia ["NDVI"] true) = start_date (alba_iulia ["NDBI"; "BSI"] false)
  ∧ end_date (alba_iulia ["NDVI"] true) = end_date (alba_iulia ["NDBI"; "BSI"] false)
  ∧ cloud_cover (alba_iulia ["NDVI"] true) = cloud_cover (alba_iulia ["NDBI"; "BSI"] false).
Proof.
  apply (@hash_input_determines_fields test_runtime).
  - apply test_runtime_str_float_inj.
  - apply test_runtime_str_float_clean.
  - reflexivity.
Defined.

(** ** The statistics of the selected indices *)

Lemma item_setitem {V} key (value : V) d : item key (setitem key value d) = Some value.
Proof.
  induction d as [| [k v] d IH]; simpl.
  - by destruct (decide (key = key)).
  - destruct (decide (k = key)) as [-> | Hne]; simpl.
    + by destruct (decide (key = key)).
    + by destruct (decide (k = key)).
Qed.

Lemma item_setitem_ne {V} key key' (value : V) d :
  key ≠ key' → item key (setitem key' value d) = item key d.
Proof.
  intros Hne. induction d as [| [k v] d IH]; simpl.
  - destruct (decide (key' = key)); [by subst | done].
  - destruct (decide (k = key')) as [-> | Hk]; simpl.
    + destruct (decide (key' = key)); [by subst | done].
    + by rewrite IH.
Qed.

Lemma setitem_keys {V} key (value : V) d k :
  k ∈ (setitem key value d).*1 ↔ k = key ∨ k ∈ d.*1.
Proof.
  induction d as [| [k0 v] d IH]; simpl.
  - rewrite list_elem_of_singleton, elem_of_nil. tauto.
  - destruct (decide (k0 = key)) as [-> | Hne]; simpl.
    + rewrite !elem_of_cons. tauto.
    + rewrite !elem_of_cons, IH. tauto.
Qed.

Section AnalysisProperties.
Context `{ee.Backend}.

Lemma calculate_statistics_failed e aoi idx :
  calculate_statistics (inl e) aoi idx = Py.raise (Py.EEException (ee.message e)).
Proof. reflexivity. Qed.

Lemma calculate_statistics_missing r aoi idx :
  idx ∉ ee.names r →
  calculate_statistics (inr r) aoi idx
  = Py.raise (Py.EEException (ee.message (ee.NoBand idx))).
Proof.
  intros Hmissing. apply lookup_band_None in Hmissing.
  unfold calculate_statistics. by rewrite (select_missing _ _ Hmissing).
Qed.

Lemma calculate_statistics_found r aoi idx b :
  ee.lookup_band idx r = Some b → (Z.of_nat (length aoi) ≤ 1000000000)%Z →
  calculate_statistics (inr r) aoi idx = Py.ret (ee.reduce_band aoi (idx, b)).
Proof.
  intros Hb Hsize. unfold calculate_statistics.
  rewrite (select_found _ _ _ Hb). unfold ee.reduceRegion.
  destruct (decide _) as [Hmany | _]; [lia |]. simpl. by rewrite ?app_nil_r.
Qed.

Lemma calculate_statistics_raises image aoi idx e :
  calculate_statistics image aoi idx = Py.raise e →
  ∃ msg, e = Py.EEException msg.
Proof.
  unfold calculate_statistics, ee.getInfo.
  destruct (ee.reduceRegion _ _) as [err | stats]; [| done].
  intros [= <-]. by eexists.
Qed.

Lemma results_to_save_fails image aoi indices results idx e :
  idx ∈ indices → calculate_statistics image aoi idx = Py.raise e →
  ∃ msg, results_to_save image aoi indices results
         = Py.raise (Py.EEException msg).
Proof.
  intros Hin Hfails. revert results.
  induction indices as [| i rest IH]; intros results;
    [by apply elem_of_nil in Hin |].
  simpl. destruct (calculate_statistics image aoi i) as [e0 | stats] eqn:Hstats.
  - apply calculate_statistics_raises in Hstats as [msg ->]. by exists msg.
  - simpl. apply elem_of_cons in Hin as [-> | Hin]; [| by apply IH].
    rewrite Hfails in Hstats. discriminate Hstats.
Qed.

Lemma indices_stats_spec image aoi indices results :
  ∃ d,
    indices_stats image aoi indices results = Py.ret d
    ∧ (∀ idx, idx ∈ indices →
         item idx d
         = Some (match calculate_statistics image aoi idx with
                 | inr stats => stats
                 | inl _ => []
                 end))
    ∧ (∀ idx, idx ∉ indices → item idx d = item idx results)
    ∧ (∀ idx, idx ∈ d.*1 ↔ idx ∈ indices ∨ idx ∈ results.*1).
Proof.
  revert results. induction indices as [| i rest IH]; intros results.
  - exists results. split; [done |]. split; [intros idx Hin; by apply elem_of_nil in Hin |].
    split; [done |]. intros idx. rewrite elem_of_nil. tauto.
  - simpl.
    set (stats := match calculate_statistics image aoi i with
                  | inr stats => stats
                  | inl _ => []
                  end).
    assert (Py.try_except
              (Py.bind (calculate_statistics image aoi i)
                 (λ stats, Py.ret (setitem i stats results)))
              (Py.ret (setitem i [] results))
            = Py.ret (setitem i stats results)) as ->.
    { subst stats. by destruct (calculate_statistics image aoi i). }
    simpl. destruct (IH (setitem i stats results)) as (d & -> & Hin & Hout & Hkeys).
    exists d. split; [done |]. split; [| split].
    + intros idx Hidx. destruct (decide (idx ∈ rest)) as [Hrest | Hrest];
        [by apply Hin |].
      apply elem_of_cons in Hidx as [-> | Hidx]; [| done].
      by rewrite (Hout _ Hrest), item_setitem.
    + intros idx Hidx. apply not_elem_of_cons in Hidx as [Hne Hrest].
      by rewrite (Hout _ Hrest), item_setitem_ne.
    + intros idx. rewrite Hkeys, setitem_keys, elem_of_cons. tauto.
Qed.

End AnalysisProperties.

Section AnalysisLoops.
Context `{ee.Backend}.

Lemma loops_agree image aoi indices results :
  (∀ idx, idx ∈ indices → ∃ stats, calculate_statistics image aoi idx = Py.ret stats) →
  results_to_save image aoi indices results
  = indices_stats image aoi indices results.
Proof.
  revert results. induction indices as [| i rest IH]; intros results Hall; [done |].
  simpl. destruct (Hall i) as [stats ->]; [apply list_elem_of_here |]. simpl.
  apply IH. intros idx Hidx. apply Hall. by apply list_elem_of_further.
Qed.

End AnalysisLoops.

(** X20. The analysis of [main] has no handler around
    [calculate_statistics]: when one of the selected indices is not a band
    of the image, the loop raises an Earth Engine exception and no
    statistics are returned, also not those of the indices before it. *)
Theorem analysis_raises_on_missing_index `{ee.Backend}
    (r : ee.Raster) (aoi : ee.Geometry) (indices : list string) (idx : string) :
  idx ∈ indices → idx ∉ ee.names r →
  ∃ msg,
    results_to_save (inr r) aoi indices [] = Py.raise (Py.EEException msg).
Proof.
  intros Hin Hmissing.
  by apply (results_to_save_fails _ _ _ _ idx _ Hin
              (calculate_statistics_missing r aoi idx Hmissing)).
Qed.

Lemma analysis_raises_on_missing_index_witness :
  ∃ msg,
    @results_to_save test_backend (inr sentinel2_image) region ["B8"; "NDVI"] []
    = Py.raise (Py.EEException msg).
Proof.
  apply (@analysis_raises_on_missing_index test_backend sentinel2_image region
           ["B8"; "NDVI"] "NDVI").
  - apply list_elem_of_further, list_elem_of_here.
  - intros Hin. apply list_elem_of_In in Hin. simpl in Hin.
    repeat (destruct Hin as [Hin | Hin]; [discriminate Hin |]). exact Hin.
Defined.

(** X21. The loop of the report never raises: it returns a dict whose
    keys are the selected indices, each with the statistics that
    [calculate_statistics] returns for it, or with the empty dict where
    [calculate_statistics] raises. *)
Theorem report_statistics_never_raise `{ee.Backend}
    (indices_image : ee.Image) (aoi : ee.Geometry) (indices : list string) :
  ∃ d,
    indices_stats indices_image aoi indices [] = Py.ret d
    ∧ (∀ idx, idx ∈ d.*1 ↔ idx ∈ indices)
    ∧ ∀ idx, idx ∈ indices →
        item idx d
        = Some (match calculate_statistics indices_image aoi idx with
                | inr stats => stats
                | inl _ => []
                end).
Proof.
  destruct (indices_stats_spec indices_image aoi indices [])
    as (d & Hd & Hin & _ & Hkeys).
  exists d. split; [done |]. split; [| done].
  intros idx. rewrite Hkeys. simpl. rewrite elem_of_nil. tauto.
Qed.

(** X22. One band missing from the image breaks both readers of the
    statistics: [calculate_indices] returns an image that fails, on which
    the analysis of [main] raises for any selection that is not empty,
    while the report catches the exception for every selected index and
    shows 0 for each of its metrics. *)
Theorem missing_band_breaks_analysis_and_report `{ee.Backend}
    (catalog : list (string * IndexCfg)) (r0 : ee.Raster)
    (extra : option (list CustomIndex)) (name : string) (cfg : IndexCfg)
    (b : string) (aoi : ee.Geometry) (indices : list string) :
  (name, cfg) ∈ catalog → evaluable cfg →
  b ∈ required_bands cfg → b ∉ ee.names r0 →
  indices ≠ [] →
  ∃ image msg d,
    calculate_indices_with catalog (inr r0) extra = Py.ret image
    ∧ results_to_save image aoi indices [] = Py.raise (Py.EEException msg)
    ∧ indices_stats image aoi indices [] = Py.ret d
    ∧ ∀ idx key, idx ∈ indices →
        ∃ stats, item idx d = Some stats ∧ shown stats key = Some 0%Qc.
Proof.
  intros Hentry Hkind Hb Hmissing Hsome.
  destruct (_compute_index_missing_band r0 name cfg b Hkind Hb Hmissing)
    as [e0 Hfails].
  destruct (staged_bands_returns catalog (inr r0) extra) as [staged Hstaged].
  pose proof (staged_bands_catalog_elem _ _ _ _ _ _ _ Hentry Hfails Hstaged)
    as Hin.
  destruct (failed_band_fails_image _ _ _ _ _ Hstaged Hin) as [e He].
  destruct indices as [| i rest]; [done |].
  destruct (results_to_save_fails (inl e) aoi (i :: rest) [] i _
              (list_elem_of_here _ _) (calculate_statistics_failed e aoi i))
    as [msg Hraise].
  destruct (indices_stats_spec (inl e) aoi (i :: rest) [])
    as (d & Hd & Hitem & _ & _).
  exists (inl e), msg, d. repeat split; try done.
  intros idx key Hidx. exists []. split; [| done].
  by rewrite (Hitem idx Hidx).
Qed.

Lemma missing_band_breaks_analysis_and_report_witness :
  ∃ image msg d,
    @calculate_indices_with test_backend INDICES_CONFIG (inr truncated_image) None
    = Py.ret image
    ∧ @results_to_save test_backend image region ["NDVI"; "NDBI"] []
      = Py.raise (Py.EEException msg)
    ∧ @indices_stats test_backend image region ["NDVI"; "NDBI"] [] = Py.ret d
    ∧ ∀ idx key, idx ∈ ["NDVI"; "NDBI"] →
        ∃ stats, item idx d = Some stats ∧ shown stats key = Some 0%Qc.
Proof.
  apply (@missing_band_breaks_analysis_and_report test_backend INDICES_CONFIG
           truncated_image None "NDRE"
           (entry "Red Edge Vegetation Index" "normalized_diff" ["B8"; "B5"]
              "Vegetation") "B5").
  - apply list_elem_of_In. simpl. tauto.
  - left. split; [reflexivity | simpl; lia].
  - apply list_elem_of_In. simpl. tauto.
  - intros Hin. apply list_elem_of_In in Hin. vm_compute in Hin.
    repeat (destruct Hin as [Hin | Hin]; [discriminate Hin |]). exact Hin.
  - discriminate.
Defined.

Lemma item_is_Some {V} key (d : list (string * V)) :
  is_Some (item key d) ↔ key ∈ d.*1.
Proof.
  induction d as [| [k v] d IH]; simpl.
  - rewrite elem_of_nil. split; [by intros [? ?] | done].
  - rewrite elem_of_cons. destruct (decide (k = key)) as [-> | Hne].
    + split; [by left | by eexists].
    + rewrite IH. split; [by right | intros [-> | Hin]; [done | done]].
Qed.

(** X23. On an evaluated image of which every selected index is a
    band, and a region within the pixel limit, the analysis of [main]
    returns, with the same dict as the loop of the report: its keys are
    the selected indices, and the entry of an index holds exactly the
    four keys [_mean], [_stdDev], [_min] and [_max] that the tabs read. *)
Theorem analysis_returns_every_statistic `{ee.Backend}
    (r : ee.Raster) (aoi : ee.Geometry) (indices : list string) :
  (Z.of_nat (length aoi) ≤ 1000000000)%Z → indices ⊆ ee.names r →
  ∃ d,
    results_to_save (inr r) aoi indices [] = Py.ret d
    ∧ indices_stats (inr r) aoi indices [] = Py.ret d
    ∧ (∀ idx, idx ∈ d.*1 ↔ idx ∈ indices)
    ∧ ∀ idx, idx ∈ indices →
        ∃ stats,
          item idx d = Some stats
          ∧ ∀ key, is_Some (item key stats) ↔ key ∈ statistics_keys idx.
Proof.
  intros Hsize Hbands.
  assert (∀ idx, idx ∈ indices →
            ∃ b, calculate_statistics (inr r) aoi idx
                 = Py.ret (ee.reduce_band aoi (idx, b))) as Hall.
  { intros idx Hidx. destruct (lookup_band_is_Some idx r (Hbands _ Hidx)) as [b Hb].
    exists b. by apply calculate_statistics_found. }
  destruct (indices_stats_spec (inr r) aoi indices [])
    as (d & Hd & Hitem & _ & Hkeys).
  exists d. split; [| split; [done | split]].
  - rewrite loops_agree; [done |]. intros idx Hidx.
    destruct (Hall idx Hidx) as [b ->]. by eexists.
  - intros idx. rewrite Hkeys. simpl. rewrite elem_of_nil. tauto.
  - intros idx Hidx. destruct (Hall idx Hidx) as [b Hb].
    exists (ee.reduce_band aoi (idx, b)). split.
    + by rewrite (Hitem idx Hidx), Hb.
    + intros key. rewrite item_is_Some. unfold ee.reduce_band, statistics_keys.
      simpl. rewrite !elem_of_cons. tauto.
Qed.

Lemma analysis_returns_every_statistic_witness :
  ∃ d,
    @results_to_save test_backend (inr sentinel2_image) region ["B8"; "B4"] []
    = Py.ret d
    ∧ @indices_stats test_backend (inr sentinel2_image) region ["B8"; "B4"] []
      = Py.ret d
    ∧ (∀ idx, idx ∈ d.*1 ↔ idx ∈ ["B8"; "B4"])
    ∧ ∀ idx, idx ∈ ["B8"; "B4"] →
        ∃ stats,
          item idx d = Some stats
          ∧ ∀ key, is_Some (item key stats) ↔ key ∈ statistics_keys idx.
Proof.
  apply (@analysis_returns_every_statistic test_backend).
  - simpl. lia.
  - intros idx Hidx. apply list_elem_of_In in Hidx. apply list_elem_of_In.
    simpl in *. tauto.
Defined.

(** ** The other formulas *)

(** X24. A custom index of kind normalized_diff is the band that a
    catalog entry of formula normalized_diff with the same two bands
    gives under the same name, on every image, evaluated or failed. *)
Theorem custom_normalized_diff_as_catalog `{ee.Backend}
    (image : ee.Image) (name : string) (cfg : IndexCfg) (custom : CustomIndex)
    (a b : string) (rest : list string) :
  formula_of cfg = "normalized_diff" → bands_of cfg = a :: b :: rest →
  custom_formula_of custom = "normalized_diff" →
  custom_name custom = Some name →
  custom_band_a custom = Some a → custom_band_b custom = Some b →
  _compute_custom_index image custom = _compute_index image name cfg.
Proof.
  intros Hkind Hbands Hcustom Hname Ha Hb.
  unfold _compute_custom_index, _compute_index.
  rewrite Hkind, Hbands, Hcustom, Hname, Ha, Hb.
  destruct (decide (_ ∧ _)) as [_ | Hno];
    [| destruct Hno; split; [done | simpl; lia]].
  destruct (decide (_ = _)) as [_ | Hne]; [| done].
  reflexivity.
Qed.

Lemma custom_normalized_diff_as_catalog_witness :
  @_compute_custom_index test_backend (inr sentinel2_image)
    {| custom_name := Some "MY_NDVI"; custom_formula := None;
       custom_band_a := Some "B8"; custom_band_b := Some "B4";
       custom_expression := None; custom_expression_bands := None |}
  = @_compute_index test_backend (inr sentinel2_image) "MY_NDVI"
      (entry "Vegetation Index" "normalized_diff" ["B8"; "B4"] "Vegetation").
Proof.
  apply (@custom_normalized_diff_as_catalog test_backend _ _ _ _ "B8" "B4" []);
    reflexivity.
Defined.

Section MoreFormulas.
Context `{ee.Backend}.

Lemma descaled_nonneg (x : Qc) : (0 ≤ x)%Qc → (0 ≤ descaled x)%Qc.
Proof.
  intros Hx. unfold descaled, Qcdiv. apply Qcmult_nonneg_nonneg; [done |].
  apply Qclt_le_weak, Qcinv_pos. by apply (bool_decide_unpack _).
Qed.

Lemma savi_divisor_nonzero (red nir : Qc) :
  (0 ≤ red)%Qc → (0 ≤ nir)%Qc →
  (descaled nir + descaled red + Q2Qc 0.5)%Qc ≠ 0%Qc.
Proof.
  intros Hred Hnir Heq.
  assert (0 < descaled nir + descaled red + Q2Qc 0.5)%Qc as Hpos.
  { apply Qclt_le_trans with (Q2Qc 0.5); [by apply (bool_decide_unpack _) |].
    apply Qcle_minus_iff.
    replace (descaled nir + descaled red + Q2Qc 0.5 + - Q2Qc 0.5)%Qc
      with (descaled nir + descaled red)%Qc by ring.
    apply Qcplus_nonneg_nonneg; by apply descaled_nonneg. }
  rewrite Heq in Hpos. by apply (Qclt_not_eq _ _ Hpos).
Qed.

End MoreFormulas.

(** X25. On an image with bands B4 and B8 the SAVI band is, at every
    pixel, (1 + L) x (NIR' - RED') / (NIR' + RED' + L) with L = 0.5 and
    each primed value the raw value divided by 10000; where the raw
    values are not negative the divisor is not 0, so that the pixel is
    defined whatever the backend makes of a division by zero. *)
Theorem SAVI_band_formula `{ee.Backend}
    (r : ee.Raster) (name : string) (cfg : IndexCfg) (B4 B8 : ee.Band) :
  formula_of cfg = "savi" →
  ee.lookup_band "B4" r = Some B4 →
  ee.lookup_band "B8" r = Some B8 →
  ∃ savi,
    _compute_index (inr r) name cfg = Py.ret (Some (inr [(name, savi)]))
    ∧ (∀ p, savi p = (red ← B4 p; nir ← B8 p; SAVI_px red nir))
    ∧ ∀ p red nir, B4 p = Some red → B8 p = Some nir →
        (0 ≤ red)%Qc → (0 ≤ nir)%Qc →
        savi p
        = Some ((1 + Q2Qc 0.5) * ((descaled nir - descaled red)
                                  / (descaled nir + descaled red + Q2Qc 0.5)))%Qc.
Proof.
  intros Hkind H4 H8. unfold _compute_index. rewrite Hkind.
  destruct (decide _) as [[Heq _] | _]; [discriminate Heq |].
  destruct (decide _) as [Heq | _]; [discriminate Heq |].
  destruct (decide _) as [_ | Hne]; [| done].
  unfold ee.add, ee.subtract, ee.multiply, ee.divide, number, ee.constant.
  rewrite (select_found _ _ _ H4), (select_found _ _ _ H8).
  rewrite !image_op_single, rename_single.
  eexists. split; [reflexivity |].
  match goal with
  | |- (∀ p, ?band p = _) ∧ _ =>
      assert (∀ p, band p = (red ← B4 p; nir ← B8 p; SAVI_px red nir))
        as Hformula
  end.
  { intros p. unfold ee.band_op, SAVI_px, quotient.
    destruct (B4 p) as [red |], (B8 p) as [nir |].
    all: pixelwise. rewrite ?one_plus_L. f_equal. ring. }
  split; [exact Hformula |].
  intros p red nir Hred Hnir Hred0 Hnir0. rewrite Hformula, Hred, Hnir. simpl.
  unfold SAVI_px, quotient.
  by rewrite (pixel_div_nonzero _ _ (savi_divisor_nonzero red nir Hred0 Hnir0)).
Qed.

Lemma SAVI_band_formula_witness :
  ∃ savi,
    @_compute_index test_backend (inr sentinel2_image) "SAVI"
      (entry "Soil-Adjusted Vegetation Index" "savi" ["B8"; "B4"] "Vegetation")
    = Py.ret (Some (inr [("SAVI", savi)]))
    ∧ (∀ p, savi p = (red ← uniform 1000 p; nir ← uniform 5000 p;
                      @SAVI_px test_backend red nir))
    ∧ ∀ p red nir, uniform 1000 p = Some red → uniform 5000 p = Some nir →
        (0 ≤ red)%Qc → (0 ≤ nir)%Qc →
        savi p
        = Some ((1 + Q2Qc 0.5) * ((descaled nir - descaled red)
                                  / (descaled nir + descaled red + Q2Qc 0.5)))%Qc.
Proof.
  apply (@SAVI_band_formula test_backend sentinel2_image); reflexivity.
Defined.

(** X26. On an image with bands B2, B4, B8 and B11 the BSI band is, at
    every pixel, ((SWIR1 + RED) - (NIR + BLUE)) / ((SWIR1 + RED) + (NIR +
    BLUE)) on the raw values; where these are not negative and not all 0
    the pixel is defined and lies between -1 and 1. *)
Theorem BSI_band_formula `{ee.Backend}
    (r : ee.Raster) (name : string) (cfg : IndexCfg) (B2 B4 B8 B11 : ee.Band) :
  formula_of cfg = "bsi" →
  ee.lookup_band "B2" r = Some B2 →
  ee.lookup_band "B4" r = Some B4 →
  ee.lookup_band "B8" r = Some B8 →
  ee.lookup_band "B11" r = Some B11 →
  ∃ bsi,
    _compute_index (inr r) name cfg = Py.ret (Some (inr [(name, bsi)]))
    ∧ (∀ p, bsi p = (blue ← B2 p; red ← B4 p; nir ← B8 p; swir1 ← B11 p;
                     BSI_px blue red nir swir1))
    ∧ ∀ p blue red nir swir1,
        B2 p = Some blue → B4 p = Some red →
        B8 p = Some nir → B11 p = Some swir1 →
        (0 ≤ blue)%Qc → (0 ≤ red)%Qc → (0 ≤ nir)%Qc → (0 ≤ swir1)%Qc →
        (swir1 + red + (nir + blue))%Qc ≠ 0%Qc →
        ∃ v, bsi p = Some v ∧ (- 1 ≤ v)%Qc ∧ (v ≤ 1)%Qc.
Proof.
  intros Hkind H2 H4 H8 H11. unfold _compute_index. rewrite Hkind.
  destruct (decide _) as [[Heq _] | _]; [discriminate Heq |].
  do 2 (destruct (decide _) as [Heq | _]; [discriminate Heq |]).
  destruct (decide _) as [_ | Hne]; [| done].
  unfold ee.add, ee.subtract, ee.divide.
  rewrite (select_found _ _ _ H2), (select_found _ _ _ H4),
    (select_found _ _ _ H8), (select_found _ _ _ H11).
  rewrite !image_op_single, rename_single.
  eexists. split; [reflexivity |].
  match goal with
  | |- (∀ p, ?band p = _) ∧ _ =>
      assert (∀ p, band p = (blue ← B2 p; red ← B4 p; nir ← B8 p;
                             swir1 ← B11 p; BSI_px blue red nir swir1))
        as Hformula
  end.
  { intros p. unfold ee.band_op, BSI_px, quotient.
    destruct (B2 p) as [blue |], (B4 p) as [red |], (B8 p) as [nir |],
      (B11 p) as [swir1 |]; reflexivity. }
  split; [exact Hformula |].
  intros p blue red nir swir1 Hblue Hred Hnir Hswir Hb0 Hr0 Hn0 Hs0 Hsum.
  rewrite Hformula, Hblue, Hred, Hnir, Hswir. simpl.
  unfold BSI_px, quotient. rewrite (pixel_div_nonzero _ _ Hsum).
  eexists. split; [reflexivity |].
  apply normalized_ratio_bounds; [by apply Qcplus_nonneg_nonneg.. | done].
Qed.

Lemma BSI_band_formula_witness :
  ∃ bsi,
    @_compute_index test_backend (inr sentinel2_image) "BSI"
      (entry "Bare Soil Index" "bsi" ["B11"; "B4"; "B8"; "B2"] "Soil")
    = Py.ret (Some (inr [("BSI", bsi)]))
    ∧ (∀ p, bsi p = (blue ← uniform 500 p; red ← uniform 1000 p;
                     nir ← uniform 5000 p; swir1 ← uniform 2000 p;
                     @BSI_px test_backend blue red nir swir1))
    ∧ ∀ p blue red nir swir1,
        uniform 500 p = Some blue → uniform 1000 p = Some red →
        uniform 5000 p = Some nir → uniform 2000 p = Some swir1 →
        (0 ≤ blue)%Qc → (0 ≤ red)%Qc → (0 ≤ nir)%Qc → (0 ≤ swir1)%Qc →
        (swir1 + red + (nir + blue))%Qc ≠ 0%Qc →
        ∃ v, bsi p = Some v ∧ (- 1 ≤ v)%Qc ∧ (v ≤ 1)%Qc.
Proof.
  apply (@BSI_band_formula test_backend sentinel2_image); reflexivity.
Defined.

(** X27. A custom index of kind ratio or difference on two bands of the
    image is one band under the custom name: masked where either band is
    masked, the difference A - B for kind difference, and the quotient
    A / B for kind ratio wherever B is not 0. *)
Theorem custom_ratio_and_difference_pixels `{ee.Backend}
    (r : ee.Raster) (custom : CustomIndex) (a b : string) (A B : ee.Band) :
  custom_formula_of custom ∈ ["ratio"; "difference"] →
  custom_band_a custom = Some a → custom_band_b custom = Some b →
  ee.lookup_band a r = Some A → ee.lookup_band b r = Some B →
  ∃ band,
    _compute_custom_index (inr r) custom
    = Py.ret (Some (inr [(Py.get (custom_name custom) "CUSTOM", band)]))
    ∧ ∀ p,
        (A p = None ∨ B p = None → band p = None)
        ∧ ∀ x y, A p = Some x → B p = Some y →
            (custom_formula_of custom = "difference" → band p = Some (x - y)%Qc)
            ∧ (custom_formula_of custom = "ratio" → y ≠ 0%Qc →
               band p = Some (x / y)%Qc).
Proof.
  intros Hkind Ha Hb HA HB. unfold _compute_custom_index.
  rewrite Ha, Hb.
  apply elem_of_cons in Hkind as [Hkind | Hkind];
    [| apply list_elem_of_singleton in Hkind]; rewrite Hkind.
  all: repeat (destruct (decide (_ = _)) as [Heq | Hne];
               [try discriminate Heq | try (by destruct Hne)]).
  all: cbn [Py.bind Py.getitem Py.ret]; unfold ee.divide, ee.subtract.
  all: rewrite (select_found _ _ _ HA), (select_found _ _ _ HB).
  all: rewrite image_op_single, rename_single.
  all: eexists; split; [reflexivity |].
  all: intros p; unfold ee.band_op; split.
  all: try (intros [-> | ->]; [done | by destruct (A p)]).
  all: intros x y -> ->; simpl; split; try done.
  intros _ Hy. by apply pixel_div_nonzero.
Qed.

Lemma custom_ratio_and_difference_pixels_witness :
  ∃ band,
    @_compute_custom_index test_backend (inr sentinel2_image) ratio_custom
    = Py.ret (Some (inr [(Py.get (custom_name ratio_custom) "CUSTOM", band)]))
    ∧ ∀ p,
        (uniform 5000 p = None ∨ uniform 1000 p = None → band p = None)
        ∧ ∀ x y, uniform 5000 p = Some x → uniform 1000 p = Some y →
            (custom_formula_of ratio_custom = "difference" →
             band p = Some (x - y)%Qc)
            ∧ (custom_formula_of ratio_custom = "ratio" → y ≠ 0%Qc →
               band p = Some (x / y)%Qc).
Proof.
  apply (@custom_ratio_and_difference_pixels test_backend sentinel2_image
           ratio_custom "B8" "B4"); try reflexivity.
  apply list_elem_of_here.
Defined.
